(** * waterbutler.core.provider: a shallow embedding and its properties

    The development follows [src/waterbutler/core/provider.py]:
    - [Exceptions]: the error taxonomy the provider code catches on;
    - [Throttle]: the [throttle] decorator and its [_THROTTLES] registry;
    - [Request]: the retry loop of [BaseProvider.make_request];
    - [Paths]: path objects, held in a heap because the code mutates them in place;
    - [Provider]: [exists], [handle_name_conflict], [handle_naming], [copy], [move]
      and [_folder_file_op] over an abstract backend;
    - [MemoryProvider]: a small dictionary-backed backend used to run the
      definitions on concrete inputs.

    The definitions come first; the properties follow in [ThrottleProps],
    [RequestProps], [PathsProps] and [ProviderProps]. *)

From Stdlib Require Import ZArith Lia.
From stdpp Require Import base decidable option list strings gmap pretty.

Open Scope Z_scope.

(* ===================================================================== *)
(** ** Exceptions *)
(* ===================================================================== *)

Module Exceptions.

(** Modelled from the spec: [waterbutler.core.exceptions] is not part of the
    sources at hand.  Section 7 of the specification lists a generic
    [ProviderError] carrying a numeric code, refined by [NotFoundError],
    [MetadataError], [DeleteError], [FolderCreationError] and [NamingConflict].
    [DownloadError] and [UploadError] appear in the docstrings of [download]
    and [upload].  [ValueError] is the builtin raised by [handle_naming];
    [AssertionError], [TypeError], [AttributeError] and [NotImplementedError]
    are the builtins Python raises for a failed [assert], [len] of an object
    without length, an attribute looked up on [None] and a method left
    abstract; [ClientError] stands for any exception
    raised below the provider layer (for instance by the HTTP client).  None of
    these is a [ProviderError]. *)
Inductive ExcClass :=
| ProviderError
| NotFoundError
| MetadataError
| DeleteError
| DownloadError
| UploadError
| FolderCreationError
| NamingConflict
| ValueError
| AssertionError
| TypeError
| AttributeError
| NotImplementedError
| ClientError.

#[global] Instance ExcClass_eq_dec : EqDecision ExcClass.
Proof. solve_decision. Defined.

(** An exception object: its class, its [code] attribute and, for
    [NamingConflict(path)], the path object it was built from (a heap
    reference, see [Paths]).  Classes outside the provider family have no
    [code] attribute in Python; the code below never reads it for them. *)
Record Exn := mkExn { cls : ExcClass; code : Z; carried : option nat }.

#[global] Instance Exn_eq_dec : EqDecision Exn.
Proof. solve_decision. Defined.

(** [is_provider_error c]: [c] is [ProviderError] or one of its refinements. *)
Definition is_provider_error (c : ExcClass) : bool :=
  match c with
  | ValueError | AssertionError | TypeError | AttributeError
  | NotImplementedError | ClientError => false
  | _ => true
  end.

(** [issubclass c d] for the taxonomy above: the refinements are direct
    children of [ProviderError] and unrelated to each other. *)
Definition issubclass (c d : ExcClass) : bool :=
  bool_decide (c = d) || (bool_decide (d = ProviderError) && is_provider_error c).

(** [except d as e] catches [e] exactly when [isinstance e d]. *)
Definition isinstance (e : Exn) (d : ExcClass) : bool := issubclass (cls e) d.

(** Modelled from the spec: [exceptions.exception_from_response(response,
    error=throws)] builds an error of kind [throws] whose code mirrors the
    status of the response (section 7: a provider error "carries a numeric code
    mirroring an HTTP-like status"). *)
Definition exception_from_response (status : Z) (throws : ExcClass) : Exn :=
  mkExn throws status None.

End Exceptions.

(* ===================================================================== *)
(** ** The rate limiter: [throttle] *)
(* ===================================================================== *)

Module Throttle.

(** An [asyncio.Event] is a shared mutable object: the registry holds a
    reference to it and [set]/[clear] act on the object.  [events] is the heap
    of gates (true = set = open). *)
Record Registry := mkRegistry {
  throttles : gmap nat (Z * Z * nat);   (* _THROTTLES: loop -> (count, last_call, event) *)
  events : gmap nat bool;
  next_event : nat
}.

Definition empty_registry : Registry := mkRegistry ∅ ∅ 0%nat.

(** The local variables [count, last_call, event] of one call of [wrapped]. *)
Record Frame := mkFrame { count : Z; last_call : Z; event : nat }.

Definition event_set (ev : nat) (r : Registry) : Registry :=
  mkRegistry (throttles r) (<[ev := true]> (events r)) (next_event r).

Definition event_clear (ev : nat) (r : Registry) : Registry :=
  mkRegistry (throttles r) (<[ev := false]> (events r)) (next_event r).

Definition event_is_set (ev : nat) (r : Registry) : bool :=
  default false (events r !! ev).

(** Lines 27-32: look the loop up, creating its entry the first time.  The
    tuple is unpacked into locals; time is counted in whole clock ticks and
    [now] is what [time.time()] returns during this step. *)
Definition enter (loop : nat) (now : Z) (r : Registry) : Registry * Frame :=
  match throttles r !! loop with
  | None =>
      let ev := next_event r in
      let r1 := mkRegistry (<[loop := (0, now, ev)]> (throttles r))
                           (<[ev := false]> (events r)) (S ev) in
      (event_set ev r1, mkFrame 0 now ev)
  | Some (c, l, ev) => (r, mkFrame c l ev)
  end.

(** How far a call gets before it first gives control away. *)
Inductive Progress :=
| Blocked (f : Frame)              (* line 34: the gate is closed *)
| Sleeping (f : Frame) (d : Z)     (* line 40: asyncio.sleep(d), gate cleared *)
| Proceeds (f : Frame).            (* line 44: the wrapped function is called *)

(** What [time.time()] returns each time one call reads it: when the entry of
    the loop is created (line 28), in the test of line 38, in the argument of
    the sleep (line 40), and when [last_call] is rebound (line 43).  The clock
    may move between the readings. *)
Record Clock := mkClock { at_create : Z; at_test : Z; at_sleep : Z; at_record : Z }.

(** A clock that reads [now] throughout a call. *)
Definition still (now : Z) : Clock := mkClock now now now now.

(** Lines 34-43 up to the first suspension.  Assignments to [count] and
    [last_call] rebind the locals of the frame; nothing is stored back into
    [_THROTTLES]. *)
Definition pass_gate (concurrency interval : Z) (clock : Clock) (r : Registry)
    (f : Frame) : Registry * Progress :=
  if event_is_set (event f) r then
    let c := count f + 1 in
    if bool_decide (c > concurrency) then
      if bool_decide (at_test clock - last_call f < interval) then
        (event_clear (event f) r,
         Sleeping (mkFrame 0 (last_call f) (event f))
                  (interval - (at_sleep clock - last_call f)))
      else (r, Proceeds (mkFrame 0 (at_record clock) (event f)))
    else (r, Proceeds (mkFrame c (at_record clock) (event f)))
  else (r, Blocked f).

(** Lines 41-43 after the sleep: reopen the gate, rebind [last_call]. *)
Definition wake (now : Z) (r : Registry) (f : Frame) : Registry * Progress :=
  (event_set (event f) r, Proceeds (mkFrame (count f) now (event f))).

(** One call of [wrapped] in event loop [loop], with the clock readings it
    makes. *)
Definition wrapped_at (concurrency interval : Z) (loop : nat) (clock : Clock)
    (r : Registry) : Registry * Progress :=
  let '(r1, f) := enter loop (at_create clock) r in
  pass_gate concurrency interval clock r1 f.

(** One call of [wrapped] in event loop [loop] during which the clock reads
    [now] throughout. *)
Definition wrapped (concurrency interval : Z) (loop : nat) (now : Z) (r : Registry)
  : Registry * Progress :=
  wrapped_at concurrency interval loop (still now) r.

(** Calls arriving one after the other in the same loop, at the given times.
    A call that proceeds does not suspend inside the limiter, so the next call
    sees the registry it leaves behind. *)
Fixpoint calls (concurrency interval : Z) (loop : nat) (times : list Z) (r : Registry)
  : Registry * list Progress :=
  match times with
  | [] => (r, [])
  | t :: ts =>
      let '(r1, p) := wrapped concurrency interval loop t r in
      let '(r2, ps) := calls concurrency interval loop ts r1 in
      (r2, p :: ps)
  end.

Definition proceeds (p : Progress) : bool :=
  match p with Proceeds _ => true | _ => false end.

(** The entry of [loop] is the one written at creation time [t0]: counter
    zero, gate [ev] open. *)
Definition pristine (loop : nat) (t0 : Z) (ev : nat) (r : Registry) : Prop :=
  throttles r !! loop = Some (0, t0, ev) ∧ events r !! ev = Some true.

End Throttle.

(* ===================================================================== *)
(** ** The request gateway: [BaseProvider.make_request] *)
(* ===================================================================== *)

Module Request.
Import Exceptions.

(** What one [aiohttp.request(...)] does: it answers with a status, or raises. *)
Inductive Reply :=
| Responded (status : Z)
| Failed (e : Exn).

(** What the caller of [make_request] can observe, in order. *)
Inductive Event :=
| Sent (attempt : nat)        (* the [attempt]-th call of aiohttp.request, from 0 *)
| Slept (seconds : Z).        (* asyncio.sleep(seconds) *)

#[global] Instance Event_eq_dec : EqDecision Event.
Proof. solve_decision. Defined.

Inductive Outcome :=
| Returned (status : Z)       (* line 171: return response *)
| Raised (e : Exn)            (* line 170 uncaught, or line 174: raise *)
| FellThrough                 (* the while condition fails: the function returns None *)
| OutOfFuel.

(** [if expects and response.status not in expects]: an absent or empty
    [expects] is falsy. *)
Definition unexpected (expects : option (list Z)) (status : Z) : bool :=
  match expects with
  | None | Some [] => false
  | Some l => bool_decide (status ∉ l)
  end.

(** The body of the [try] (lines 168-171) for the [i]-th attempt. *)
Definition attempt (expects : option (list Z)) (throws : ExcClass)
    (net : nat → Reply) (i : nat) : Exn + Z :=
  match net i with
  | Responded st =>
      if unexpected expects st then inl (exception_from_response st throws) else inr st
  | Failed e => inl e
  end.

(** Lines 166-176.  [retry0] is [_retry], the budget the call started with;
    [retry] counts down; [i] numbers the attempts. *)
Fixpoint retry_loop (fuel : nat) (retry_on : gset Z) (expects : option (list Z))
    (throws : ExcClass) (net : nat → Reply) (retry0 retry : Z) (i : nat)
  : Outcome * list Event :=
  match fuel with
  | O => (OutOfFuel, [])
  | S fuel' =>
      if bool_decide (retry >= 0) then
        match attempt expects throws net i with
        | inr st => (Returned st, [Sent i])
        | inl e =>
            if isinstance e throws then
              if bool_decide (retry <= 0) || bool_decide (code e ∉ retry_on)
              then (Raised e, [Sent i])
              else
                let '(o, tr) :=
                  retry_loop fuel' retry_on expects throws net retry0 (retry - 1) (S i) in
                (o, Sent i :: Slept ((1 + retry0 - retry) * 2) :: tr)
            else (Raised e, [Sent i])
        end
      else (FellThrough, [])
  end.

(** [make_request] with [retry = r]; the loop body runs at most [r + 1] times. *)
Definition make_request (retry_on : gset Z) (expects : option (list Z))
    (throws : ExcClass) (net : nat → Reply) (r : Z) : Outcome * list Event :=
  retry_loop (S (Z.to_nat (r + 1))) retry_on expects throws net r r 0.

Definition default_retry_on : gset Z := {[408; 502; 503; 504]}.

(** An error the loop may retry on: caught by [except throws] and coded in
    [retry_on]. *)
Definition retryable (retry_on : gset Z) (throws : ExcClass) (e : Exn) : Prop :=
  isinstance e throws = true ∧ code e ∈ retry_on.

(** The events of a call whose first [k] attempts were retried:
    Sent 0, Slept 2, Sent 1, Slept 4, ..., Slept 2k, Sent k. *)
Fixpoint schedule_from (i k : nat) : list Event :=
  match k with
  | O => [Sent i]
  | S k' => Sent i :: Slept (2 * (Z.of_nat i + 1)) :: schedule_from (S i) k'
  end.

Definition schedule (k : nat) : list Event := schedule_from 0 k.

Definition result_of (a : Exn + Z) : Outcome :=
  match a with inr st => Returned st | inl e => Raised e end.

(** The attempt that ends the call: a response that is returned, an error that
    is not retryable, or any error once the budget is used up. *)
Definition final (retry_on : gset Z) (throws : ExcClass) (r : Z) (k : nat)
    (a : Exn + Z) : Prop :=
  match a with
  | inr _ => True
  | inl e => ¬ retryable retry_on throws e ∨ Z.of_nat k = r
  end.

(** A server answering 503, 503, 200 under the defaults: sleeps of 2s and 4s. *)
Definition flaky (i : nat) : Reply :=
  match i with
  | 0%nat | 1%nat => Responded 503
  | _ => Responded 200
  end.

(** How many requests a trace holds, and how long it slept in all. *)
Fixpoint sent_count (tr : list Event) : nat :=
  match tr with
  | [] => O
  | Sent _ :: tr' => S (sent_count tr')
  | Slept _ :: tr' => sent_count tr'
  end.

Fixpoint slept_total (tr : list Event) : Z :=
  match tr with
  | [] => 0
  | Sent _ :: tr' => slept_total tr'
  | Slept d :: tr' => d + slept_total tr'
  end.

End Request.

(* ===================================================================== *)
(** ** Path objects *)
(* ===================================================================== *)

Module Paths.

(** Modelled from the spec: [waterbutler.core.path] is not part of the sources
    at hand.  Section 3 describes a path as an ordered sequence of named
    segments with a flag [is_dir], a [name] (the last segment), a [parent], a
    [child(name, is_dir)] constructor and an [increment_name] transformation
    producing the next name of a numbered-suffix sequence; section 8 fixes the
    suffix format ("a.txt", "a (1).txt", "a (2).txt").  A segment keeps the
    stem and extension of the name it was built from and a counter. *)
Record Part := mkPart { stem : string; ext : string; count : nat }.

#[global] Instance Part_eq_dec : EqDecision Part.
Proof. solve_decision. Defined.

(** The name a segment renders to. *)
Definition part_value (p : Part) : string :=
  match count p with
  | O => stem p +:+ ext p
  | S _ => stem p +:+ " (" +:+ pretty (count p) +:+ ")" +:+ ext p
  end.

Definition dot : Ascii.ascii := Ascii.ascii_of_nat 46.

(** Splits a string at its last dot: (before the dot, from the dot on). *)
Fixpoint rsplit_dot (s : string) : option (string * string) :=
  match s with
  | EmptyString => None
  | String c s' =>
      match rsplit_dot s' with
      | Some (a, b) => Some (String c a, b)
      | None => if Ascii.eqb c dot then Some (EmptyString, s) else None
      end
  end.

Fixpoint all_dots (s : string) : bool :=
  match s with
  | EmptyString => true
  | String c s' => Ascii.eqb c dot && all_dots s'
  end.

(** Stem and extension of a file name: the extension starts at the last dot,
    unless only dots precede it. *)
Definition splitext (s : string) : string * string :=
  match rsplit_dot s with
  | Some (a, b) => if all_dots a then (s, EmptyString) else (a, b)
  | None => (s, EmptyString)
  end.

Definition new_part (n : string) : Part :=
  mkPart (splitext n).1 (splitext n).2 O.

(** A path: the segments above the last one, the last segment, and the flag.
    The root is the path whose only segment is the empty name. *)
Record Path := mkPath { init : list Part; leaf : Part; is_dir : bool }.

#[global] Instance Path_eq_dec : EqDecision Path.
Proof. solve_decision. Defined.

Definition root : Path := mkPath [] (new_part "") true.

Definition name (p : Path) : string := part_value (leaf p).
Definition is_file (p : Path) : bool := negb (is_dir p).

(** [path.parent]: a folder path; none at the root. *)
Definition parent (p : Path) : option Path :=
  match rev (init p) with
  | [] => None
  | x :: r => Some (mkPath (rev r) x true)
  end.

(** [base.child(name, folder=folder)]. *)
Definition child (base : Path) (n : string) (folder : bool) : Path :=
  mkPath (init base ++ [leaf base]) (new_part n) folder.

(** [path.rename(name)]: the last segment is replaced by one built from [name]. *)
Definition rename (n : string) (p : Path) : Path :=
  mkPath (init p) (new_part n) (is_dir p).

(** [path.increment_name()]: the counter of the last segment goes up by one. *)
Definition increment_name (p : Path) : Path :=
  mkPath (init p) (mkPart (stem (leaf p)) (ext (leaf p)) (S (count (leaf p)))) (is_dir p).

(** The names of the segments below the root, as a backend would key a node. *)
Definition key (p : Path) : list string :=
  match map part_value (init p ++ [leaf p]) with
  | [] => []
  | _ :: below => below
  end.

(** [increment_name] applied [k] times. *)
Definition bump (k : nat) (p : Path) : Path := Nat.iter k increment_name p.

End Paths.

(* ===================================================================== *)
(** ** [BaseProvider]: naming, conflicts and transfers *)
(* ===================================================================== *)

Module Provider.
Import Exceptions Paths.

(** Modelled from the spec: metadata objects ([waterbutler.core.metadata]) are
    not part of the sources at hand.  Section 3: a name, a folder flag and, for
    a folder, the list of child metadata filled in by a recursive operation. *)
#[warnings="-register-all"]
Inductive Meta := mkMeta (m_name : string) (m_is_folder : bool) (m_children : list Meta).

Definition m_name (m : Meta) : string := let '(mkMeta n _ _) := m in n.
Definition m_is_folder (m : Meta) : bool := let '(mkMeta _ f _) := m in f.
Definition m_children (m : Meta) : list Meta := let '(mkMeta _ _ c) := m in c.
Definition set_children (c : list Meta) (m : Meta) : Meta :=
  mkMeta (m_name m) (m_is_folder m) c.

(** What [metadata] returns: one object for a file, a list for a folder. *)
Inductive Listing :=
| One (m : Meta)
| Many (l : list Meta).

(** What [exists] returns: the result of [metadata], or [False]. *)
Inductive Existence :=
| Found (r : Listing)
| Absent.

(** Python's truth value of that result: [False] and the empty list are falsy. *)
Definition truthy (x : Existence) : bool :=
  match x with
  | Absent | Found (Many []) => false
  | Found _ => true
  end.

(** [exists == []]. *)
Definition is_empty_list (x : Existence) : bool :=
  match x with
  | Found (Many []) => true
  | _ => false
  end.

(** A download stream: the suggested file name, if the stream has one, and
    the bytes. *)
Record Stream := mkStream { stream_name : option string; body : string }.

(** [getattr(download_stream, 'name', None)] when it is truthy. *)
Definition suggested_name (st : Stream) : option string :=
  match stream_name st with
  | Some n => if bool_decide (n = "") then None else Some n
  | None => None
  end.

(** [rename or default]. *)
Definition or_name (rename : option string) (default : string) : string :=
  match rename with
  | Some n => if bool_decide (n = "") then default else n
  | None => default
  end.

(** The calls made on backends, in order, with the provider's [NAME] and the
    value of the path object at the time of the call. *)
Inductive Call :=
| CallMetadata (prov : string) (p : Path)
| CallDownload (prov : string) (p : Path)
| CallUpload (prov : string) (st : Stream) (p : Path)
| CallDelete (prov : string) (p : Path)
| CallCreateFolder (prov : string) (p : Path)
| CallIntraCopy (prov : string) (src dst : Path).

(** How a computation ends. *)
Inductive Res (A : Type) :=
| Ok (a : A)
| Err (e : Exn)
| Out.                      (* the fuel of a loop or recursion ran out *)
Arguments Ok {A} a.
Arguments Err {A} e.
Arguments Out {A}.

Section Backend.
Context {St : Type}.

(** The abstract methods of [BaseProvider], over the state [St] of the storage
    services.  A method reads the path object it is given and may change the
    storage.  [can_intra_copy] and [can_intra_move] take the [NAME] of the
    other provider. *)
Record Backend := mkBackend {
  NAME : string;
  metadata : Path → St → (Exn + Listing) * St;
  download : Path → St → (Exn + Stream) * St;
  upload : Stream → Path → St → (Exn + (Meta * bool)) * St;
  delete : Path → St → (Exn + unit) * St;
  create_folder : Path → St → (Exn + Meta) * St;
  can_intra_copy : string → Path → bool;
  can_intra_move : string → Path → bool;
  intra_copy : string → Path → Path → St → (Exn + (Meta * bool)) * St
}.

(** The heap of path objects (they are mutated in place and shared between
    caller and callee), the storage, and the log of backend calls. *)
Record World := mkWorld {
  heap : gmap nat Path;
  next : nat;
  storage : St;
  log : list Call
}.

Definition M (A : Type) : Type := World → Res A * World.

Definition ret {A} (a : A) : M A := λ w, (Ok a, w).
Definition raise {A} (e : Exn) : M A := λ w, (Err e, w).
Definition out {A} : M A := λ w, (Out, w).

Definition bind {A B} (m : M A) (k : A → M B) : M B := λ w,
  match m w with
  | (Ok a, w') => k a w'
  | (Err e, w') => (Err e, w')
  | (Out, w') => (Out, w')
  end.

(** [try: m except Exception as e: h e]. *)
Definition catch {A} (m : M A) (h : Exn → M A) : M A := λ w,
  match m w with
  | (Err e, w') => h e w'
  | r => r
  end.

Notation "'let*' x ':=' m 'in' k" := (bind m (λ x, k))
  (at level 10, x name, m at level 100, k at level 200, only parsing).

Definition deref (l : nat) (w : World) : Path := default root (heap w !! l).

Definition read (l : nat) : M Path := λ w, (Ok (deref l w), w).

Definition modify (l : nat) (f : Path → Path) : M unit := λ w,
  (Ok tt, mkWorld (<[l := f (deref l w)]> (heap w)) (next w) (storage w) (log w)).

Definition alloc (p : Path) : M nat := λ w,
  (Ok (next w), mkWorld (<[next w := p]> (heap w)) (S (next w)) (storage w) (log w)).

(** A backend call: logged, then run on the storage. *)
Definition call {A} (c : Call) (op : St → (Exn + A) * St) : M A := λ w,
  let '(r, s') := op (storage w) in
  (match r with inl e => Err e | inr a => Ok a end,
   mkWorld (heap w) (next w) s' (log w ++ [c])).

Definition do_metadata (b : Backend) (p : Path) : M Listing :=
  call (CallMetadata (NAME b) p) (metadata b p).
Definition do_download (b : Backend) (p : Path) : M Stream :=
  call (CallDownload (NAME b) p) (download b p).
Definition do_upload (b : Backend) (st : Stream) (p : Path) : M (Meta * bool) :=
  call (CallUpload (NAME b) st p) (upload b st p).
Definition do_delete (b : Backend) (p : Path) : M unit :=
  call (CallDelete (NAME b) p) (delete b p).
Definition do_create_folder (b : Backend) (p : Path) : M Meta :=
  call (CallCreateFolder (NAME b) p) (create_folder b p).
Definition do_intra_copy (b : Backend) (other : string) (src dst : Path) : M (Meta * bool) :=
  call (CallIntraCopy (NAME b) src dst) (intra_copy b other src dst).

(** [revalidate_path] (lines 417-426): [base.child(path, folder=folder)], a new
    path object.  [base] is [None] when it is the parent of the root. *)
Definition revalidate_path (base : option Path) (n : string) (folder : bool) : M nat :=
  match base with
  | Some b => alloc (child b n folder)
  | None => raise (mkExn AttributeError 0 None)
  end.

(** [exists] (lines 367-384). *)
Definition exists_ (self : Backend) (path : nat) : M Existence :=
  let* p := read path in
  catch (let* r := do_metadata self p in ret (Found r))
        (λ e, if isinstance e NotFoundError then ret Absent
              else if isinstance e MetadataError then
                     if bool_decide (code e ≠ 404) then raise e else ret Absent
              else raise e).

(** The [while True] loop of [handle_name_conflict] (lines 403-413). *)
Fixpoint keep_loop (fuel : nat) (self : Backend) (path : nat) : M unit :=
  match fuel with
  | O => out
  | S fuel' =>
      let* _ := modify path increment_name in
      let* p := read path in
      let* test_path := revalidate_path (parent p) (name p) (is_dir p) in
      let* ex := exists_ self test_path in
      if negb (truthy ex || is_empty_list ex) then ret tt
      else keep_loop fuel' self path
  end.

(** [handle_name_conflict] (lines 386-415). *)
Definition handle_name_conflict (fuel : nat) (self : Backend) (path : nat)
    (conflict : string) : M (nat * Existence) :=
  let* ex := exists_ self path in
  if (negb (truthy ex) && negb (is_empty_list ex)) || bool_decide (conflict = "replace")
  then ret (path, ex)
  else if bool_decide (conflict = "warn")
  then raise (mkExn NamingConflict 409 (Some path))
  else let* _ := keep_loop fuel self path in ret (path, Absent).

(** [handle_naming] (lines 303-335). *)
Definition handle_naming (fuel : nat) (self : Backend) (src_path dest_path : nat)
    (rename : option string) (conflict : string) : M nat :=
  let* sp := read src_path in
  let* dp := read dest_path in
  if is_dir sp && is_file dp then raise (mkExn ValueError 0 None)
  else
    let* dest_path' := (if negb (is_file dp)
                  then revalidate_path (Some dp) (or_name rename (name sp)) (is_dir sp)
                  else ret dest_path) in
    let* r := handle_name_conflict fuel self dest_path' conflict in
    ret r.1.

(** The task created by [asyncio.ensure_future(func(...))], run to its end:
    its result or its exception is kept in the future. *)
Definition run_task (func : nat → nat → M (Meta * bool)) (sd : nat * nat)
  : M (Exn + (Meta * bool)) := λ w,
  match func sd.1 sd.2 w with
  | (Ok r, w') => (Ok (inr r), w')
  | (Err e, w') => (Ok (inl e), w')
  | (Out, w') => (Out, w')
  end.

(** The tasks waiting in the event loop get to run, oldest first. *)
Fixpoint flush (func : nat → nat → M (Meta * bool)) (pending : list (nat * nat))
  : M (list (Exn + (Meta * bool))) :=
  match pending with
  | [] => ret []
  | sd :: rest =>
      let* r := run_task func sd in
      let* rs := flush func rest in
      ret (r :: rs)
  end.

(** The inner [for item in items[i:i + OP_CONCURRENCY]] loop (lines 279-291)
    followed by [asyncio.wait] (line 296).  The event loop is taken in the
    schedule where no backend call suspends: a task created by [ensure_future]
    starts when the creating coroutine next awaits, and then runs to its end
    before the next one starts.  [pending] are the tasks created and not yet
    started, [futures] the results of those that ran.  Awaiting a folder's
    future lets the pending tasks run, then the folder's own; its exception is
    raised at once. *)
Fixpoint build_batch (func : nat → nat → M (Meta * bool)) (src_path dest_path : nat)
    (items : list Meta) (pending : list (nat * nat))
    (futures : list (Exn + (Meta * bool))) : M (list (Exn + (Meta * bool))) :=
  match items with
  | [] =>
      let* rs := flush func pending in
      ret (futures ++ rs)
  | item :: rest =>
      let* sp := read src_path in
      let* s := revalidate_path (Some sp) (m_name item) (m_is_folder item) in
      let* dp := read dest_path in
      let* d := revalidate_path (Some dp) (m_name item) (m_is_folder item) in
      if m_is_folder item then
        let* rs := flush func pending in
        let* r := run_task func (s, d) in
        match r with
        | inl e => raise e
        | inr _ => build_batch func src_path dest_path rest [] (futures ++ rs ++ [r])
        end
      else build_batch func src_path dest_path rest (pending ++ [(s, d)]) futures
  end.

(** [for fut in done: folder.children.append(fut.result()[0])] (lines 298-299);
    [done] is taken in the order the futures were created. *)
Fixpoint collect (done : list (Exn + (Meta * bool))) : M (list Meta) :=
  match done with
  | [] => ret []
  | inl e :: _ => raise e
  | inr r :: rest => let* ms := collect rest in ret (r.1 :: ms)
  end.

(** [range(0, n, step)] for a positive [step]. *)
Definition range_step (n step : nat) : list nat :=
  filter (λ i, (i mod step)%nat = 0%nat) (seq 0 n).

(** [items[i:i + step]]. *)
Definition slice {A} (i step : nat) (items : list A) : list A :=
  take step (drop i items).

(** The outer loop over the batches (lines 277-299). *)
Fixpoint run_batches (func : nat → nat → M (Meta * bool)) (src_path dest_path : nat)
    (batches : list (list Meta)) : M (list Meta) :=
  match batches with
  | [] => ret []
  | b :: rest =>
      let* futures := build_batch func src_path dest_path b [] [] in
      let* ms := (match futures with [] => ret [] | _ => collect futures end) in
      let* ms' := run_batches func src_path dest_path rest in
      ret (ms ++ ms')
  end.

(** The [try] around [dest_provider.delete(dest_path)] (lines 262-268). *)
Definition delete_dest (dest_provider : Backend) (dest_path : nat) : M bool :=
  let* dp := read dest_path in
  catch (let* _ := do_delete dest_provider dp in ret false)
        (λ e, if isinstance e ProviderError
              then if bool_decide (code e ≠ 404) then raise e else ret true
              else raise e).

(** [_folder_file_op] (lines 244-301).  [op_concurrency] is
    [settings.OP_CONCURRENCY], which the sources at hand do not define. *)
Definition _folder_file_op (op_concurrency : Z)
    (func : nat → nat → M (Meta * bool))
    (self dest_provider : Backend) (src_path dest_path : nat) : M (Meta * bool) :=
  let* sp := read src_path in
  if negb (is_dir sp) then raise (mkExn AssertionError 0 None)
  else
    let* created := delete_dest dest_provider dest_path in
    let* dp := read dest_path in
    let* folder := do_create_folder dest_provider dp in
    let* dest_path' := revalidate_path (parent dp) (name dp) (is_dir dp) in
    let* sp' := read src_path in
    let* items := do_metadata self sp' in
    match items with
    | One _ => raise (mkExn TypeError 0 None)
    | Many l =>
        if bool_decide (op_concurrency = 0) then raise (mkExn ValueError 0 None)
        else
          let step := Z.to_nat op_concurrency in
          let batches :=
            if bool_decide (op_concurrency < 0) then []
            else map (λ i, slice i step l) (range_step (length l) step) in
          let* children := run_batches func src_path dest_path' batches in
          ret (set_children children folder, created)
    end.

(** [copy] (lines 217-242).  [fuel] bounds the depth of the folder recursion
    and the length of the renaming loop. *)
Fixpoint copy (fuel : nat) (op_concurrency : Z) (self dest_provider : Backend)
    (src_path dest_path : nat) (rename : option string) (conflict : string)
    (naming : bool) : M (Meta * bool) :=
  match fuel with
  | O => out
  | S fuel' =>
      let* dest_path' := (if naming
                    then handle_naming fuel dest_provider src_path dest_path rename conflict
                    else ret dest_path) in
      let* sp := read src_path in
      if can_intra_copy self (NAME dest_provider) sp then
        let* dp := read dest_path' in
        do_intra_copy self (NAME dest_provider) sp dp
      else if is_dir sp then
        _folder_file_op op_concurrency
          (λ s d, copy fuel' op_concurrency self dest_provider s d None "replace" false)
          self dest_provider src_path dest_path'
      else
        let* download_stream := do_download self sp in
        let* _ := (match suggested_name download_stream with
                   | Some n => modify dest_path' (Paths.rename n)
                   | None => ret tt
                   end) in
        let* dp := read dest_path' in
        do_upload dest_provider download_stream dp
  end.

(** [intra_move] (lines 362-365). *)
Definition intra_move (self dest_provider : Backend) (src_path dest_path : nat)
  : M (Meta * bool) :=
  let* sp := read src_path in
  let* dp := read dest_path in
  let* r := do_intra_copy self (NAME dest_provider) sp dp in
  let* sp' := read src_path in
  let* _ := do_delete self sp' in
  ret r.

(** [move] (lines 181-215).  When [naming] is off, [rename] and [conflict]
    travel on to [copy] as keyword arguments; when it is on, they do not. *)
Fixpoint move (fuel : nat) (op_concurrency : Z) (self dest_provider : Backend)
    (src_path dest_path : nat) (rename : option string) (conflict : string)
    (naming : bool) : M (Meta * bool) :=
  match fuel with
  | O => out
  | S fuel' =>
      let* dest_path' := (if naming
                    then handle_naming fuel dest_provider src_path dest_path rename conflict
                    else ret dest_path) in
      let* sp := read src_path in
      if can_intra_move self (NAME dest_provider) sp then
        intra_move self dest_provider src_path dest_path'
      else
        let* r := (if is_dir sp then
               _folder_file_op op_concurrency
                 (λ s d, move fuel' op_concurrency self dest_provider s d None "replace" false)
                 self dest_provider src_path dest_path'
             else if naming then
               copy fuel op_concurrency self dest_provider src_path dest_path'
                    None "replace" false
             else
               copy fuel op_concurrency self dest_provider src_path dest_path'
                    rename conflict false) in
        let* sp' := read src_path in
        let* _ := do_delete self sp' in
        ret r
  end.

(** "Copy followed by delete of the source", as the specification words the
    behaviour of a move without fast path: the reference [move] is compared
    with. *)
Definition copy_then_delete (fuel : nat) (op_concurrency : Z) (self dest_provider : Backend)
    (src_path dest_path : nat) (rename : option string) (conflict : string)
    (naming : bool) : M (Meta * bool) :=
  let* r := copy fuel op_concurrency self dest_provider src_path dest_path rename conflict naming in
  let* sp := read src_path in
  let* _ := do_delete self sp in
  ret r.

(** [create_folder] as [BaseProvider] defines it (lines 515-524): folder
    creation is not supported, code 405. *)
Definition base_create_folder (p : Path) (s : St) : (Exn + Meta) * St :=
  (inl (mkExn ProviderError 405 None), s).

(** [zip] (lines 428-439), up to the arguments handed to the archive
    generator: the folder the archive is rooted at ([None] when it is the
    parent of the root) and the items to put in it.  For a file path the
    answer of [metadata] is wrapped in a one-element list; for a folder path
    it is unpacked, which fails on an answer that is no list. *)
Definition zip_ (self : Backend) (path : nat) : M (option Path * list Listing) :=
  let* p := read path in
  let* metadata := do_metadata self p in
  let* p' := read path in
  if is_file p' then ret (parent p', [metadata])
  else
    match metadata with
    | Many l => ret (Some p', map One l)
    | One _ => raise (mkExn TypeError 0 None)
    end.

(** *** Terms in which the properties below are stated *)

(** The errors [exists] turns into [False]. *)
Definition swallowed (e : Exn) : bool :=
  isinstance e NotFoundError || (isinstance e MetadataError && bool_decide (code e = 404)).

(** What [exists] makes of the answer of [metadata]. *)
Definition exists_answer (r : Exn + Listing) : Res Existence :=
  match r with
  | inr l => Ok (Found l)
  | inl e => if swallowed e then Ok Absent else Err e
  end.

(** The world after one backend call [c] that left the storage [s]. *)
Definition after_call (c : Call) (s : St) (w : World) : World :=
  mkWorld (heap w) (next w) s (log w ++ [c]).

(** The node counts as existing for [handle_name_conflict]. *)
Definition existing (x : Existence) : bool := truthy x || is_empty_list x.

(** A world whose references are all below [next]. *)
Definition allocated (l : nat) (w : World) : Prop := (l < next w)%nat.

(** Where an error of the renaming loop comes from. *)
Definition from_metadata (self : Backend) (e : Exn) : Prop :=
  ∃ p s, (metadata self p s).1 = inl e.

(** The [j]-th candidate tested for the path value [p] under the folder [b]:
    the child named like [p] after [j] increments. *)
Definition candidate (b p : Path) (j : nat) : Path :=
  child b (name (bump j p)) (is_dir p).

(** What the [try] around the delete makes of the answer of [delete]. *)
Definition created_flag (r : Exn + unit) : Res bool :=
  match r with
  | inr _ => Ok false
  | inl e => if isinstance e ProviderError && bool_decide (code e = 404)
             then Ok true else Err e
  end.

(** The world in which [upload] is called: after the download, and after the
    rename when the stream suggests a name. *)
Definition before_upload (self : Backend) (src d : nat) (st : Stream) (s2 : St)
    (w : World) : World :=
  let w2 := after_call (CallDownload (NAME self) (deref src w)) s2 w in
  match suggested_name st with
  | Some n => (modify d (Paths.rename n) w2).2
  | None => w2
  end.

(** The delete of the source that ends a move, applied to the result of the
    transfer before it. *)
Definition then_delete (self : Backend) (src : nat) (r : Res (Meta * bool) * World)
  : Res (Meta * bool) * World :=
  match r with
  | (Ok x, w1) =>
      (match (delete self (deref src w1) (storage w1)).1 with
       | inr _ => Ok x
       | inl e => Err e
       end,
       after_call (CallDelete (NAME self) (deref src w1))
                  (delete self (deref src w1) (storage w1)).2 w1)
  | other => other
  end.

End Backend.

Arguments Backend St : clear implicits.
Arguments World St : clear implicits.

End Provider.

(* ===================================================================== *)
(** ** A dictionary-backed backend *)
(* ===================================================================== *)

Module MemoryProvider.
Import Exceptions Paths Provider.

(** A small concrete provider to run the definitions on: nodes are kept in
    listing order under the names of their segments; [broken] lists the files
    whose download fails with code 500; [announce] is the file name every
    download stream suggests, if any. *)
Record Node := mkNode { node_key : list string; node_is_folder : bool; content : string }.

Record Disk := mkDisk {
  nodes : list Node;
  broken : list (list string);
  announce : option string
}.

Definition not_found : Exn := mkExn NotFoundError 404 None.

Definition find_node (k : list string) (folder : bool) (d : Disk) : option Node :=
  List.find (λ n, bool_decide (node_key n = k) && Bool.eqb (node_is_folder n) folder)
            (nodes d).

Definition last_name (k : list string) : string := List.last k "".

Definition meta_of (n : Node) : Meta :=
  mkMeta (last_name (node_key n)) (node_is_folder n) [].

Definition is_child (k : list string) (n : Node) : bool :=
  bool_decide (removelast (node_key n) = k) && bool_decide (node_key n ≠ []).

Definition mem_metadata (p : Path) (d : Disk) : (Exn + Listing) * Disk :=
  if is_dir p then
    if bool_decide (key p = []) || bool_decide (is_Some (find_node (key p) true d))
    then (inr (Many (map meta_of (filter (λ n, is_child (key p) n = true) (nodes d)))), d)
    else (inl not_found, d)
  else
    match find_node (key p) false d with
    | Some n => (inr (One (meta_of n)), d)
    | None => (inl not_found, d)
    end.

Definition mem_download (p : Path) (d : Disk) : (Exn + Stream) * Disk :=
  if bool_decide (key p ∈ broken d) then (inl (mkExn DownloadError 500 None), d)
  else
    match find_node (key p) false d with
    | Some n => (inr (mkStream (announce d) (content n)), d)
    | None => (inl not_found, d)
    end.

Definition without (k : list string) (folder : bool) (d : Disk) : list Node :=
  filter (λ n, ¬ (node_key n = k ∧ node_is_folder n = folder)) (nodes d).

Definition mem_upload (st : Stream) (p : Path) (d : Disk)
  : (Exn + (Meta * bool)) * Disk :=
  let n := mkNode (key p) false (body st) in
  (inr (meta_of n, negb (bool_decide (is_Some (find_node (key p) false d)))),
   mkDisk (without (key p) false d ++ [n]) (broken d) (announce d)).

Definition under (k : list string) (n : Node) : bool :=
  bool_decide (take (length k) (node_key n) = k).

Definition mem_delete (p : Path) (d : Disk) : (Exn + unit) * Disk :=
  match find_node (key p) (is_dir p) d with
  | Some _ =>
      (inr tt,
       mkDisk (if is_dir p then filter (λ n, under (key p) n = false) (nodes d)
               else without (key p) false d)
              (broken d) (announce d))
  | None => (inl not_found, d)
  end.

Definition mem_create_folder (p : Path) (d : Disk) : (Exn + Meta) * Disk :=
  let n := mkNode (key p) true "" in
  (inr (meta_of n), mkDisk (nodes d ++ [n]) (broken d) (announce d)).

Definition memory : Backend Disk :=
  mkBackend "memory" mem_metadata mem_download mem_upload mem_delete mem_create_folder
    (λ _ _, false) (λ _ _, false)
    (λ _ _ _ d, (inl (mkExn NotImplementedError 0 None), d)).

(** Paths used in the examples. *)
Definition at_root (n : string) (folder : bool) : Path := child root n folder.

Definition world_of (paths : list Path) (d : Disk) : World Disk :=
  mkWorld (list_to_map (zip (seq 0 (length paths)) paths)) (length paths) d [].

(** *** Example disks, paths and worlds *)

Definition dir_path : Path := at_root "dir" true.
Definition src_folder : Path := at_root "src" true.

(** /dir/a.txt and /dir/a (1).txt exist; object 0 is the path /dir/a.txt. *)
Definition disk_taken : Disk :=
  mkDisk [mkNode ["dir"] true ""; mkNode ["dir"; "a.txt"] false "A";
          mkNode ["dir"; "a (1).txt"] false "B"] [] None.
Definition world_taken : World Disk :=
  world_of [child dir_path "a.txt" false] disk_taken.

(** /dir/sub/ is an empty folder; object 0 is the path /dir/sub/. *)
Definition disk_empty_folder : Disk :=
  mkDisk [mkNode ["dir"] true ""; mkNode ["dir"; "sub"] true ""] [] None.
Definition world_empty_folder : World Disk :=
  world_of [child dir_path "sub" true] disk_empty_folder.

(** /src/ holds the files a and b, and the download of b fails; /dst/ is
    empty.  Object 0 is the path /src/, object 1 the path /dst/src/. *)
Definition disk_tree : Disk :=
  mkDisk [mkNode ["src"] true ""; mkNode ["src"; "a"] false "A";
          mkNode ["src"; "b"] false "B"; mkNode ["dst"] true ""]
         [["src"; "b"]] None.
Definition world_tree : World Disk :=
  world_of [src_folder; child (at_root "dst" true) "src" true] disk_tree.

(** The same tree with every download working. *)
Definition world_tree_sound : World Disk :=
  world_of [src_folder; child (at_root "dst" true) "src" true]
           (mkDisk (nodes disk_tree) [] None).

(** /a.txt and the folder /dir/ exist, and every download stream suggests the
    name report.pdf.  Object 0 is the path /a.txt, object 1 the path /dir/,
    object 2 the path /dir/b.txt. *)
Definition disk_named : Disk :=
  mkDisk [mkNode ["a.txt"] false "A"; mkNode ["dir"] true ""] [] (Some "report.pdf").
Definition world_named : World Disk :=
  world_of [at_root "a.txt" false; dir_path; child dir_path "b.txt" false] disk_named.

(** The memory provider with a fast path: a file is copied inside the disk. *)
Definition mem_intra_copy (other : string) (src dst : Path) (d : Disk)
  : (Exn + (Meta * bool)) * Disk :=
  match find_node (key src) false d with
  | Some n => mem_upload (mkStream None (content n)) dst d
  | None => (inl not_found, d)
  end.

Definition memory_fast : Backend Disk :=
  mkBackend "memory" mem_metadata mem_download mem_upload mem_delete mem_create_folder
    (λ _ _, true) (λ _ _, true) mem_intra_copy.

(** The memory provider without folder support: [create_folder] is the one
    of [BaseProvider]. *)
Definition memory_flat : Backend Disk :=
  mkBackend "flat" mem_metadata mem_download mem_upload mem_delete base_create_folder
    (λ _ _, false) (λ _ _, false)
    (λ _ _ _ d, (inl (mkExn NotImplementedError 0 None), d)).

(** What the caller of a transfer can observe: how it ended, and the storage. *)
Definition observed {A} (r : Res A * World Disk) : Res A * list Node :=
  (r.1, nodes (storage r.2)).

End MemoryProvider.

(* ===================================================================== *)
(** ** Request headers *)
(* ===================================================================== *)

Module Headers.

(** [build_headers] (lines 131-138): the default headers, updated with the
    keyword arguments, without the entries whose value is [None].  A header
    dictionary maps a name to a value or to [None]. *)
Definition build_headers (default_headers kwargs : gmap string (option string))
  : gmap string string :=
  omap id (kwargs ∪ default_headers).

(** One bound of a range: [''] when it is [None], its decimal digits
    otherwise. *)
Definition bound (b : option Z) : string :=
  match b with
  | None => ""
  | Some z => pretty z
  end.

(** [_build_range_header] (lines 526-531). *)
Definition _build_range_header (slice_tup : option Z * option Z) : string :=
  "bytes=" +:+ bound slice_tup.1 +:+ "-" +:+ bound slice_tup.2.

(** The headers [make_request] sends (lines 156-162): those of
    [build_headers] for the [headers] keyword (an empty dictionary when it is
    not given), and the [Range] header when [range] is given. *)
Definition request_headers (default_headers : gmap string (option string))
    (headers : option (gmap string (option string)))
    (range : option (option Z * option Z)) : gmap string string :=
  let h := build_headers default_headers (default ∅ headers) in
  match range with
  | Some r => <["Range" := _build_range_header r]> h
  | None => h
  end.

(** No character of the string is a dash. *)
Fixpoint dashless (s : string) : Prop :=
  match s with
  | EmptyString => True
  | String c s' => c ≠ Ascii.ascii_of_nat 45 ∧ dashless s'
  end.

End Headers.

(* ===================================================================== *)
(** ** Provider identity *)
(* ===================================================================== *)

Module Identity.

Section Objects.
Context {A C T : Type} `{EqDecision C}.

(** What [__eq__] (lines 98-105) looks at: the class of the object and its
    attributes.  [credentials] is [None] when the object has no such
    attribute, in which case reading it raises [AttributeError]. *)
Record Object := mkObject {
  class_name : string;
  auth : A;
  credentials : option C;
  settings : T
}.

(** [__eq__]: the classes are compared first; the [AttributeError] of a
    missing [credentials] is caught and gives [False]. *)
Definition eq_ (self other : Object) : bool :=
  bool_decide (class_name self = class_name other)
  && match credentials self, credentials other with
     | Some a, Some b => bool_decide (a = b)
     | _, _ => false
     end.

End Objects.

Arguments Object A C T : clear implicits.

End Identity.

(* ===================================================================== *)
(** ** Properties of the rate limiter *)
(* ===================================================================== *)

Module ThrottleProps.
Import Throttle.

Lemma enter_fresh loop now :
  pristine loop now 0%nat (enter loop now empty_registry).1
  ∧ (enter loop now empty_registry).2 = mkFrame 0 now 0%nat.
Proof.
  unfold enter, empty_registry, pristine; cbn.
  rewrite lookup_empty; cbn. rewrite !lookup_insert_eq. auto.
Qed.

Lemma wrapped_pristine concurrency interval loop t0 ev now r :
  1 ≤ concurrency →
  pristine loop t0 ev r →
  wrapped concurrency interval loop now r = (r, Proceeds (mkFrame 1 now ev)).
Proof.
  intros Hc [Hl He]. unfold wrapped, wrapped_at, enter. cbn [still at_create].
  rewrite Hl. unfold pass_gate, event_is_set; cbn.
  rewrite He; cbn. rewrite bool_decide_eq_false_2 by lia. reflexivity.
Qed.

Lemma calls_pristine concurrency interval loop t0 ev times r :
  1 ≤ concurrency →
  pristine loop t0 ev r →
  calls concurrency interval loop times r
  = (r, map (λ t, Proceeds (mkFrame 1 t ev)) times).
Proof.
  intros Hc Hp. induction times as [|t ts IH]; cbn [calls map]; [done|].
  rewrite (wrapped_pristine _ _ _ _ _ _ _ Hc Hp), IH. reflexivity.
Qed.

(** Whatever the number of calls and their times, with [concurrency >= 1] the
    stored tuple stays the one written by the first call: every call reads
    counter 0, counts to 1 in its own frame, and proceeds without a pause. *)
Lemma calls_never_pause concurrency interval loop t ts :
  1 ≤ concurrency →
  calls concurrency interval loop (t :: ts) empty_registry
  = ((enter loop t empty_registry).1,
     map (λ t', Proceeds (mkFrame 1 t' 0%nat)) (t :: ts)).
Proof.
  intros Hc. destruct (enter_fresh loop t) as [Hp Hf].
  cbn [calls map]. unfold wrapped, wrapped_at. cbn [still at_create].
  destruct (enter loop t empty_registry) as [r1 f] eqn:E; cbn in Hp, Hf; subst f.
  unfold pass_gate, event_is_set; cbn. destruct Hp as [Hl He]. rewrite He; cbn.
  rewrite bool_decide_eq_false_2 by lia.
  rewrite (calls_pristine concurrency interval loop t 0%nat ts r1 Hc (conj Hl He)).
  reflexivity.
Qed.

(** C1 (the code departs from the claim): with the defaults [concurrency = 10]
    and [interval = 1], eleven calls made in one event loop at the same instant
    [t = 5] all reach the wrapped function, none is put to sleep, and the
    registry still holds counter 0 and the creation time as last-reset time:
    the counter and last-reset time a call computes are not the state the next
    call sees, and more than [concurrency] calls start within one interval. *)
Theorem throttle_eleven_calls_one_window :
  forallb proceeds (calls 10 1 0%nat (replicate 11 5) empty_registry).2 = true
  ∧ length (calls 10 1 0%nat (replicate 11 5) empty_registry).2 = 11%nat
  ∧ throttles (calls 10 1 0%nat (replicate 11 5) empty_registry).1 !! 0%nat
    = Some (0, 5, 0%nat)
  ∧ event_is_set 0 (calls 10 1 0%nat (replicate 11 5) empty_registry).1 = true.
Proof.
  change (replicate 11 5) with (5 :: replicate 10 5).
  rewrite calls_never_pause by lia.
  destruct (enter_fresh 0%nat 5) as [[Hl He] _].
  cbn [fst snd]. unfold event_is_set. rewrite He, Hl. auto.
Qed.

(** *** Further properties of the limiter *)

Lemma wrapped_throttles concurrency interval loop now r x :
  throttles r !! loop = Some x →
  throttles (wrapped concurrency interval loop now r).1 = throttles r.
Proof.
  intros Hx. unfold wrapped, wrapped_at, enter. rewrite Hx. destruct x as [[c l] ev].
  unfold pass_gate. cbn [event].
  destruct (event_is_set ev r); [|done].
  destruct (bool_decide _); [|done]. by destruct (bool_decide _).
Qed.

(** X1: once an event loop has its entry in [_THROTTLES], no call of the
    wrapped function changes the stored tuple (count, last_call, event),
    whatever the concurrency, the interval and the times of the calls. *)
Theorem registry_entry_never_rewritten concurrency interval loop times r x :
  throttles r !! loop = Some x →
  throttles (calls concurrency interval loop times r).1 = throttles r.
Proof.
  revert r. induction times as [|t ts IH]; intros r Hx; [done|].
  cbn [calls].
  pose proof (wrapped_throttles concurrency interval loop t r x Hx) as Hw.
  destruct (wrapped concurrency interval loop t r) as [r1 p]. cbn [fst] in Hw.
  assert (throttles r1 !! loop = Some x) as Hx1 by (by rewrite Hw).
  specialize (IH r1 Hx1).
  destruct (calls concurrency interval loop ts r1) as [r2 ps]. cbn [fst] in *.
  by rewrite IH.
Qed.

(** A registry in which loop 0 was entered at time 3. *)
Lemma registry_entry_never_rewritten_witness :
  throttles (calls 0 1 0%nat [3; 4; 9] (enter 0%nat 3 empty_registry).1).1
  = throttles (enter 0%nat 3 empty_registry).1.
Proof.
  apply (registry_entry_never_rewritten 0 1 0%nat [3; 4; 9] _ (0, 3, 0%nat)).
  apply enter_fresh.
Defined.

(** X2: a call is put to sleep only when the clock reading of the test is less
    than [interval] after [last_call]; it then closes the gate and sleeps for
    [interval - (t - last_call)], where [t] is the clock reading taken for the
    sleep.  Until it wakes, every other call in the same loop blocks at the
    gate and leaves the registry as it is; once it has woken, calls pass the
    gate again. *)
Theorem sleeping_call_closes_gate concurrency interval loop clock r r1 f d :
  wrapped_at concurrency interval loop clock r = (r1, Sleeping f d) →
  at_test clock - last_call f < interval
  ∧ d = interval - (at_sleep clock - last_call f)
  ∧ (∀ c' i' clock', ∃ f', wrapped_at c' i' loop clock' r1 = (r1, Blocked f'))
  ∧ (∀ now2 c' i' clock' f',
       (wrapped_at c' i' loop clock' (wake now2 r1 f).1).2 ≠ Blocked f').
Proof.
  unfold wrapped_at.
  assert (∀ r0 cn l ev,
    throttles r0 !! loop = Some (cn, l, ev) →
    pass_gate concurrency interval clock r0 (mkFrame cn l ev) = (r1, Sleeping f d) →
    at_test clock - last_call f < interval
    ∧ d = interval - (at_sleep clock - last_call f)
    ∧ throttles r1 !! loop = Some (cn, l, ev)
    ∧ events r1 !! ev = Some false ∧ event f = ev) as Hgate.
  { intros r0 cn l ev Hl. unfold pass_gate. cbn [event count last_call].
    destruct (event_is_set ev r0); [|done].
    destruct (bool_decide _); [|done].
    destruct (bool_decide (at_test clock - l < interval)) eqn:Hlt; [|done].
    apply bool_decide_eq_true in Hlt. intros H. inversion H; subst; clear H.
    unfold event_clear. cbn [throttles events event last_call].
    repeat split; try done; try lia. apply lookup_insert_eq. }
  intros Hrun.
  assert (at_test clock - last_call f < interval
    ∧ d = interval - (at_sleep clock - last_call f)
    ∧ ∃ cn l ev, throttles r1 !! loop = Some (cn, l, ev)
      ∧ events r1 !! ev = Some false ∧ event f = ev) as (Hd & Heq & cn & l & ev & Hl & He & Hf).
  { unfold enter in Hrun. destruct (throttles r !! loop) as [[[cn l] ev]|] eqn:Hl.
    - apply Hgate in Hrun as (? & ? & ? & ? & ?); [|done]. eauto 10.
    - apply Hgate in Hrun as (? & ? & ? & ? & ?); [eauto 10|].
      cbn. by rewrite lookup_insert_eq. }
  split; [done|]. split; [done|]. split.
  - intros c' i' clock'. unfold enter. rewrite Hl. unfold pass_gate, event_is_set.
    cbn [event]. rewrite He. cbn. eauto.
  - intros now2 c' i' clock' f'. unfold wake, enter, event_set.
    cbn [fst snd throttles]. rewrite Hl. unfold pass_gate, event_is_set.
    cbn [event events]. rewrite Hf, lookup_insert_eq. cbn [default].
    destruct (bool_decide _); [|done]. by destruct (bool_decide _).
Qed.

(** With [concurrency = 0], a first call whose clock moves from 5 to 7 while
    it runs is put to sleep for [1 - (7 - 5)] seconds, and closes the gate. *)
Lemma sleeping_call_closes_gate_witness :
  -1 = 1 - (7 - 5)
  ∧ (∀ c' i' clock', ∃ f',
       wrapped_at c' i' 0%nat clock'
         (wrapped_at 0 1 0%nat (mkClock 5 5 7 7) empty_registry).1
       = ((wrapped_at 0 1 0%nat (mkClock 5 5 7 7) empty_registry).1, Blocked f')).
Proof.
  destruct (sleeping_call_closes_gate 0 1 0%nat (mkClock 5 5 7 7) empty_registry
              (wrapped_at 0 1 0%nat (mkClock 5 5 7 7) empty_registry).1
              (mkFrame 0 5 0%nat) (-1))
    as (_ & Hd & Hblock & _).
  - reflexivity.
  - split; [exact Hd | exact Hblock].
Defined.

End ThrottleProps.

(* ===================================================================== *)
(** ** Properties of the request gateway *)
(* ===================================================================== *)

Module RequestProps.
Import Exceptions Request.

Section Loop.
Context (retry_on : gset Z) (expects : option (list Z)) (throws : ExcClass)
        (net : nat → Reply).

(** The loop, started at attempt [i] with [retry = r - i], when attempts
    [i .. i+k-1] are retried and attempt [i+k] is final. *)
Lemma retry_loop_schedule (r : Z) (k : nat) : ∀ (i fuel : nat),
  (Z.of_nat i + Z.of_nat k ≤ r) →
  (k < fuel)%nat →
  (∀ j, (i ≤ j < i + k)%nat →
        ∃ e, attempt expects throws net j = inl e ∧ retryable retry_on throws e) →
  final retry_on throws r (i + k) (attempt expects throws net (i + k)) →
  retry_loop fuel retry_on expects throws net r (r - Z.of_nat i) i
  = (result_of (attempt expects throws net (i + k)), schedule_from i k).
Proof.
  induction k as [|k IH]; intros i fuel Hle Hfuel Hretry Hfinal.
  - destruct fuel as [|fuel]; [lia|]. cbn [retry_loop schedule_from].
    rewrite Nat.add_0_r in *. rewrite bool_decide_eq_true_2 by lia.
    destruct (attempt expects throws net i) as [e|st]; [|done].
    cbn [result_of]. destruct (isinstance e throws) eqn:Hi; [|done].
    destruct Hfinal as [Hn|Hk].
    + destruct (bool_decide (r - Z.of_nat i ≤ 0)); [done|]. cbn [orb].
      rewrite bool_decide_eq_true_2; [done|].
      intros Hin. apply Hn. split; done.
    + rewrite (bool_decide_eq_true_2 (r - Z.of_nat i ≤ 0)) by lia. done.
  - destruct fuel as [|fuel]; [lia|]. cbn [retry_loop schedule_from].
    rewrite bool_decide_eq_true_2 by lia.
    destruct (Hretry i ltac:(lia)) as (e & He & Hinst & Hcode).
    rewrite He, Hinst.
    rewrite (bool_decide_eq_false_2 (r - Z.of_nat i ≤ 0)) by lia. cbn [orb].
    rewrite bool_decide_eq_false_2 by (intros Hn; apply Hn, Hcode).
    replace (r - Z.of_nat i - 1) with (r - Z.of_nat (S i)) by lia.
    replace (i + S k)%nat with (S i + k)%nat in * by lia.
    rewrite (IH (S i) fuel); [| lia | lia | | done].
    + f_equal. f_equal. f_equal. f_equal. lia.
    + intros j Hj. apply Hretry. lia.
Qed.

End Loop.

(** C2, as the code has it: a call with budget [r >= 0] whose first [k <= r]
    attempts fail with an error caught by [except throws] and coded in
    [retry_on], and whose attempt [k] is
    final (a returned response, an error that is not retryable, or any error
    when [k = r], the budget being used up), sends attempts 0..k and sleeps
    2, 4, ..., 2k seconds, each sleep right before the next attempt; the final
    attempt is followed by no sleep, and its response is returned or its error
    raised to the caller. *)
Theorem make_request_retry_schedule (retry_on : gset Z) (expects : option (list Z))
    (throws : ExcClass) (net : nat → Reply) (r : Z) (k : nat) :
  Z.of_nat k ≤ r →
  (∀ j, (j < k)%nat →
        ∃ e, attempt expects throws net j = inl e ∧ retryable retry_on throws e) →
  final retry_on throws r k (attempt expects throws net k) →
  make_request retry_on expects throws net r
  = (result_of (attempt expects throws net k), schedule k).
Proof.
  intros Hk Hretry Hfinal. unfold make_request, schedule.
  pose proof (retry_loop_schedule retry_on expects throws net r k 0%nat
                (S (Z.to_nat (r + 1)))) as H.
  rewrite Z.sub_0_r in H. apply H; try done; try lia.
  intros j Hj. apply Hretry. lia.
Qed.

(** C2 (the claim as worded fails): under the defaults ([throws] is
    [ProviderError], [retry = 2]), a request that raises an error coded 503
    which is no provider error is not caught by [except throws]: although its
    code is in [retry_on] and the whole budget remains, it is raised to the
    caller after the first request, with no sleep and no retry. *)
Lemma make_request_uncaught_error_not_retried :
  code (mkExn ClientError 503 None) ∈ default_retry_on
  ∧ isinstance (mkExn ClientError 503 None) ProviderError = false
  ∧ make_request default_retry_on (Some [200]) ProviderError
      (λ _, Failed (mkExn ClientError 503 None)) 2
    = (Raised (mkExn ClientError 503 None), [Sent 0]).
Proof.
  split; [|split; reflexivity].
  unfold default_retry_on. cbn. set_solver.
Qed.

(** A status outside [retry_on] fails on the first attempt, with no sleep. *)
Example make_request_not_retryable :
  make_request default_retry_on (Some [200]) ProviderError (λ _, Responded 404) 2
  = (Raised (mkExn ProviderError 404 None), [Sent 0]).
Proof. reflexivity. Qed.

(** A server that always answers 503 uses the budget up: three attempts, the
    sleeps of 2s and 4s between them, and the last error raised at once. *)
Example make_request_exhausted :
  make_request default_retry_on (Some [200]) ProviderError (λ _, Responded 503) 2
  = (Raised (mkExn ProviderError 503 None), [Sent 0; Slept 2; Sent 1; Slept 4; Sent 2]).
Proof. reflexivity. Qed.

(** The schedule on a server answering 503, 503, 200 under the defaults
    ([retry = 2], [expects = (200, 206)]): two sleeps, of 2s and 4s. *)
Lemma make_request_retry_schedule_witness :
  make_request default_retry_on (Some [200; 206]) ProviderError flaky 2
  = (Returned 200, [Sent 0; Slept 2; Sent 1; Slept 4; Sent 2]).
Proof.
  apply (make_request_retry_schedule default_retry_on (Some [200; 206])
           ProviderError flaky 2 2).
  - lia.
  - intros j Hj. exists (mkExn ProviderError 503 None).
    destruct j as [|[|j]]; [| |lia]; (split; [reflexivity|]);
      (split; [reflexivity|]); unfold default_retry_on; cbn; set_solver.
  - exact I.
Defined.

(** *** Further properties of the retry loop *)

Lemma retry_loop_bounds retry_on expects throws net r0 : ∀ fuel retry i,
  0 ≤ retry ≤ r0 →
  (Z.to_nat retry < fuel)%nat →
  (retry_loop fuel retry_on expects throws net r0 retry i).1 ≠ OutOfFuel
  ∧ (retry_loop fuel retry_on expects throws net r0 retry i).1 ≠ FellThrough
  ∧ 1 ≤ Z.of_nat (sent_count (retry_loop fuel retry_on expects throws net r0 retry i).2)
      ≤ retry + 1
  ∧ 0 ≤ slept_total (retry_loop fuel retry_on expects throws net r0 retry i).2
      ≤ retry * (2 * r0 + 1 - retry).
Proof.
  induction fuel as [|fuel IH]; intros retry i Hr Hfuel; [lia|].
  cbn [retry_loop]. rewrite bool_decide_eq_true_2 by lia.
  destruct (attempt expects throws net i) as [e|st].
  - destruct (isinstance e throws).
    + destruct (bool_decide (retry ≤ 0) || bool_decide (code e ∉ retry_on)) eqn:Hstop.
      * cbn. repeat split; try done; try lia; nia.
      * apply orb_false_iff in Hstop as [Hstop _].
        apply bool_decide_eq_false in Hstop.
        destruct (IH (retry - 1) (S i)) as (H1 & H2 & H3 & H4); [lia|lia|].
        destruct (retry_loop fuel retry_on expects throws net r0 (retry - 1) (S i))
          as [o tr]. cbn [fst snd] in *. cbn [sent_count slept_total].
        repeat split; try done; try lia; nia.
    + cbn. repeat split; try done; try lia; nia.
  - cbn. repeat split; try done; try lia; nia.
Qed.

(** X3: with a retry budget [r >= 0], whatever the server does, a call of
    [make_request] ends by returning a response or raising an error, after at
    least one and at most [r + 1] requests and at most [r * (r + 1)] seconds
    of sleep in all (6 seconds for the default budget of 2). *)
Theorem make_request_bounded retry_on expects throws net r :
  0 ≤ r →
  ((∃ st, (make_request retry_on expects throws net r).1 = Returned st)
   ∨ (∃ e, (make_request retry_on expects throws net r).1 = Raised e))
  ∧ 1 ≤ Z.of_nat (sent_count (make_request retry_on expects throws net r).2) ≤ r + 1
  ∧ 0 ≤ slept_total (make_request retry_on expects throws net r).2 ≤ r * (r + 1).
Proof.
  intros Hr. unfold make_request.
  destruct (retry_loop_bounds retry_on expects throws net r
              (S (Z.to_nat (r + 1))) r 0) as (H1 & H2 & H3 & H4); [lia|lia|].
  split; [|split; [done|nia]].
  destruct (retry_loop _ _ _ _ _ _ _ _).1 as [st|e| |]; [| |done|done].
  - left. by exists st.
  - right. by exists e.
Qed.

(** The bounds on a server that always answers 503, under the defaults. *)
Lemma make_request_bounded_witness :
  1 ≤ Z.of_nat (sent_count
         (make_request default_retry_on (Some [200]) ProviderError
            (λ _, Responded 503) 2).2) ≤ 2 + 1
  ∧ 0 ≤ slept_total
         (make_request default_retry_on (Some [200]) ProviderError
            (λ _, Responded 503) 2).2 ≤ 2 * (2 + 1).
Proof.
  destruct (make_request_bounded default_retry_on (Some [200]) ProviderError
              (λ _, Responded 503) 2) as (_ & Hsent & Hslept); [lia|].
  split; [exact Hsent | exact Hslept].
Defined.

(** X4: with a negative retry budget the loop body never runs: no request is
    sent, nothing is slept, and the call returns [None] rather than a response
    or an error. *)
Theorem make_request_negative_retry retry_on expects throws net r :
  r < 0 →
  make_request retry_on expects throws net r = (FellThrough, []).
Proof.
  intros Hr. unfold make_request. cbn [retry_loop].
  by rewrite bool_decide_eq_false_2 by lia.
Qed.

Lemma make_request_negative_retry_witness :
  make_request default_retry_on (Some [200]) ProviderError flaky (-1)
  = (FellThrough, []).
Proof.
  apply (make_request_negative_retry default_retry_on (Some [200]) ProviderError
           flaky (-1)).
  lia.
Defined.

(** X5: the status check is skipped when [expects] is absent or empty: the
    first response is returned whatever its status, also one listed in
    [retry_on], after a single request and no sleep. *)
Theorem make_request_without_expects retry_on expects throws net r st :
  0 ≤ r →
  expects = None ∨ expects = Some [] →
  net 0%nat = Responded st →
  make_request retry_on expects throws net r = (Returned st, [Sent 0]).
Proof.
  intros Hr Hex Hnet. unfold make_request. cbn [retry_loop].
  rewrite bool_decide_eq_true_2 by lia. unfold attempt. rewrite Hnet.
  by destruct Hex as [-> | ->].
Qed.

Lemma make_request_without_expects_witness :
  make_request default_retry_on (Some []) ProviderError (λ _, Responded 503) 2
  = (Returned 503, [Sent 0]).
Proof.
  apply (make_request_without_expects default_retry_on (Some []) ProviderError
           (λ _, Responded 503) 2 503); [lia | by right | reflexivity].
Defined.

End RequestProps.

(* ===================================================================== *)
(** ** Properties of path objects *)
(* ===================================================================== *)

Module PathsProps.
Import Paths.

(** *** Strings *)

Lemma app_cons c (a b : string) : String c a +:+ b = String c (a +:+ b).
Proof. reflexivity. Qed.

Lemma app_length (a b : string) :
  String.length (a +:+ b) = (String.length a + String.length b)%nat.
Proof.
  induction a as [|c a IH]; [done|].
  rewrite app_cons. cbn [String.length Nat.add]. by rewrite IH.
Qed.

Lemma app_nil_r (a : string) : a +:+ "" = a.
Proof. induction a as [|c a IH]; [done|]. rewrite app_cons. by rewrite IH. Qed.

Lemma app_inv_tail (t a b : string) : a +:+ t = b +:+ t → a = b.
Proof.
  revert b. induction a as [|c a IH]; intros [|d b] H.
  - done.
  - apply (f_equal String.length) in H. rewrite !app_length in H.
    cbn [String.length] in H. lia.
  - apply (f_equal String.length) in H. rewrite !app_length in H.
    cbn [String.length] in H. lia.
  - rewrite !app_cons in H. injection H as -> H. f_equal. by apply IH.
Qed.

Lemma rsplit_dot_app s a b : rsplit_dot s = Some (a, b) → a +:+ b = s.
Proof.
  revert a b. induction s as [|c s IH]; intros a b H; simpl in H; [done|].
  destruct (rsplit_dot s) as [[a' b']|].
  - injection H as <- <-. rewrite app_cons. f_equal. by apply IH.
  - destruct (Ascii.eqb c dot); [|done]. by injection H as <- <-.
Qed.

Lemma splitext_app s : (splitext s).1 +:+ (splitext s).2 = s.
Proof.
  unfold splitext. destruct (rsplit_dot s) as [[a b]|] eqn:E.
  - destruct (all_dots a); simpl; [apply app_nil_r | by apply rsplit_dot_app].
  - simpl. apply app_nil_r.
Qed.

(** A freshly built segment renders to the name it was built from. *)
Lemma part_value_new_part n : part_value (new_part n) = n.
Proof. unfold part_value, new_part; cbn. apply splitext_app. Qed.

Lemma name_rename n p : name (rename n p) = n.
Proof. apply part_value_new_part. Qed.

Lemma name_child b n f : name (child b n f) = n.
Proof. apply part_value_new_part. Qed.

(** Two counters on the same stem and extension render to the same name only
    when they are equal: the numbered suffixes never repeat. *)
Lemma part_value_inj s e (c c' : nat) :
  part_value (mkPart s e c) = part_value (mkPart s e c') → c = c'.
Proof.
  unfold part_value; cbn.
  destruct c as [|c], c' as [|c']; intros H; [done| | |].
  - apply (f_equal String.length) in H. rewrite !app_length in H. simpl in H. lia.
  - apply (f_equal String.length) in H. rewrite !app_length in H. simpl in H. lia.
  - apply (inj (String.app s)) in H. apply (inj (String.app " (")) in H.
    assert (pretty (S c) = pretty (S c')) as Hp.
    { apply (app_inv_tail (")" +:+ e)). exact H. }
    by apply (inj pretty) in Hp.
Qed.

Lemma bump_shape k p :
  bump k p = mkPath (init p) (mkPart (stem (leaf p)) (ext (leaf p)) (k + count (leaf p)))
                    (is_dir p).
Proof.
  induction k as [|k IH].
  - by destruct p as [i [s e c] d].
  - change (bump (S k) p) with (increment_name (bump k p)). rewrite IH. reflexivity.
Qed.

Lemma name_bump_inj j k p : name (bump j p) = name (bump k p) → j = k.
Proof.
  rewrite !bump_shape. unfold name; cbn. intros H.
  apply part_value_inj in H. lia.
Qed.

Lemma is_dir_bump k p : is_dir (bump k p) = is_dir p.
Proof. by rewrite bump_shape. Qed.

Lemma parent_bump k p : parent (bump k p) = parent p.
Proof. by rewrite bump_shape. Qed.

End PathsProps.

(* ===================================================================== *)
(** ** Properties of request headers *)
(* ===================================================================== *)

Module HeadersProps.
Import Paths PathsProps Headers.

(** X6: in the headers [build_headers] returns, a keyword argument overrides
    the default header of the same name; a keyword argument set to [None]
    removes that default; and a name no keyword mentions keeps its default,
    unless the default itself is [None]. *)
Theorem build_headers_lookup (default_headers kwargs : gmap string (option string))
    (k : string) :
  (∀ v, kwargs !! k = Some (Some v) → build_headers default_headers kwargs !! k = Some v)
  ∧ (kwargs !! k = Some None → build_headers default_headers kwargs !! k = None)
  ∧ (kwargs !! k = None →
     build_headers default_headers kwargs !! k = default_headers !! k ≫= id).
Proof.
  unfold build_headers. rewrite lookup_omap, lookup_union.
  repeat split.
  - intros v ->. by destruct (default_headers !! k).
  - intros ->. by destruct (default_headers !! k).
  - intros ->. by destruct (default_headers !! k).
Qed.

(** *** The range header *)

Lemma dashless_pretty_N_go (x : N) : ∀ s, dashless s → dashless (pretty_N_go x s).
Proof.
  induction (N.lt_wf_0 x) as [x _ IH]; intros s Hs.
  assert (x = 0 ∨ 0 < x)%N as [->|Hx] by lia.
  - by rewrite pretty_N_go_0.
  - rewrite pretty_N_go_step by done. apply IH.
    + by apply N.div_lt.
    + split; [|done]. unfold pretty_N_char. by repeat case_match.
Qed.

Lemma pretty_N_go_length (x : N) : ∀ s,
  (String.length s ≤ String.length (pretty_N_go x s))%nat.
Proof.
  induction (N.lt_wf_0 x) as [x _ IH]; intros s.
  assert (x = 0 ∨ 0 < x)%N as [->|Hx] by lia.
  - by rewrite pretty_N_go_0.
  - rewrite pretty_N_go_step by done.
    etrans; [|apply IH; by apply N.div_lt]. cbn. lia.
Qed.

Lemma pretty_N_shape (x : N) :
  dashless (pretty x) ∧ (1 ≤ String.length (pretty x))%nat.
Proof.
  unfold pretty, pretty_N. case_decide as Hx.
  - split; [|cbn; lia]. split; [done|exact I].
  - split; [by apply dashless_pretty_N_go|].
    rewrite pretty_N_go_step by lia.
    etrans; [|apply pretty_N_go_length]. cbn. lia.
Qed.

Lemma pretty_Z_length (z : Z) : (1 ≤ String.length (pretty z))%nat.
Proof.
  destruct z as [|p|p]; unfold pretty, pretty_Z.
  - cbn. lia.
  - apply (pretty_N_shape (Npos p)).
  - rewrite app_length. cbn. lia.
Qed.

Lemma pretty_Z_dashless (z : Z) : 0 ≤ z → dashless (pretty z).
Proof.
  destruct z as [|p|p]; intros Hz; unfold pretty, pretty_Z.
  - split; [done|exact I].
  - apply (pretty_N_shape (Npos p)).
  - lia.
Qed.

(** The first dash of a string splits it in one way only. *)
Lemma split_at_dash (a a' b b' : string) :
  dashless a → dashless a' →
  a +:+ "-" +:+ b = a' +:+ "-" +:+ b' → a = a' ∧ b = b'.
Proof.
  revert a'. induction a as [|c a IH]; intros [|c' a'] Ha Ha' H.
  - change (String (Ascii.ascii_of_nat 45) b = String (Ascii.ascii_of_nat 45) b') in H.
    by injection H as ->.
  - change (String (Ascii.ascii_of_nat 45) b = String c' (a' +:+ "-" +:+ b')) in H.
    injection H as <- _. by destruct Ha' as [? _].
  - change (String c (a +:+ "-" +:+ b) = String (Ascii.ascii_of_nat 45) b') in H.
    injection H as -> _. by destruct Ha as [? _].
  - change (String c (a +:+ "-" +:+ b) = String c' (a' +:+ "-" +:+ b')) in H.
    injection H as -> H.
    destruct Ha as [_ Ha], Ha' as [_ Ha'].
    destruct (IH a' Ha Ha' H) as [-> ->]. done.
Qed.

Lemma bound_inj (b b' : option Z) : bound b = bound b' → b = b'.
Proof.
  destruct b as [z|], b' as [z'|]; cbn; intros H; try done.
  - f_equal. by apply (inj pretty).
  - pose proof (pretty_Z_length z) as Hl. rewrite H in Hl. cbn in Hl. lia.
  - pose proof (pretty_Z_length z') as Hl. rewrite <- H in Hl. cbn in Hl. lia.
Qed.

Lemma bound_dashless (b : option Z) :
  (∀ z, b = Some z → 0 ≤ z) → dashless (bound b).
Proof.
  destruct b as [z|]; intros H; [|exact I]. apply pretty_Z_dashless. by apply H.
Qed.

(** X7: two ranges whose start bounds are absent or non-negative get the same
    [Range] header only if they are the same range: the header tells the start
    from the end, a missing bound from a given one, and one number from
    another. *)
Theorem range_header_inj (r r' : option Z * option Z) :
  (∀ z, r.1 = Some z → 0 ≤ z) →
  (∀ z, r'.1 = Some z → 0 ≤ z) →
  _build_range_header r = _build_range_header r' →
  r = r'.
Proof.
  destruct r as [s e], r' as [s' e']. unfold _build_range_header. cbn [fst snd].
  intros Hs Hs' H. apply (inj (String.app "bytes=")) in H.
  apply split_at_dash in H as [H1 H2]; [|by apply bound_dashless..].
  apply bound_inj in H1, H2. by subst.
Qed.

Lemma range_header_inj_witness :
  (Some 0, None) = (Some 0, @None Z).
Proof.
  apply (range_header_inj (Some 0, None) (Some 0, None)).
  - intros z [= <-]. lia.
  - intros z [= <-]. lia.
  - reflexivity.
Defined.

(** X8: when [make_request] is given a [range], the [Range] header it sends is
    the one built from that range, whatever [Range] the default headers or the
    [headers] keyword hold; every other header is as [build_headers] gives
    it.  Without a [range], the headers are those of [build_headers]. *)
Theorem request_headers_range default_headers headers range (k : string) :
  (∀ r, range = Some r →
        request_headers default_headers headers range !! "Range"
        = Some (_build_range_header r))
  ∧ (k ≠ "Range" →
     request_headers default_headers headers range !! k
     = build_headers default_headers (default ∅ headers) !! k)
  ∧ (range = None →
     request_headers default_headers headers range
     = build_headers default_headers (default ∅ headers)).
Proof.
  unfold request_headers. repeat split.
  - intros r ->. apply lookup_insert_eq.
  - intros Hk. destruct range; [by rewrite lookup_insert_ne|done].
  - by intros ->.
Qed.

End HeadersProps.

(* ===================================================================== *)
(** ** Properties of provider identity *)
(* ===================================================================== *)

Module IdentityProps.
Import Identity.

Section Objects.
Context {A C T : Type} `{EqDecision C}.
Implicit Types (p q r : Object A C T).

(** X9: the equality of providers looks at the class and the credentials
    only: it is symmetric and transitive, it does not change when [auth] or
    [settings] change, and a provider equals itself exactly when it has
    credentials. *)
Theorem provider_eq_relation p q r (a : A) (t : T) :
  eq_ p q = eq_ q p
  ∧ (eq_ p q = true → eq_ q r = true → eq_ p r = true)
  ∧ eq_ (mkObject (class_name p) a (credentials p) t) q = eq_ p q
  ∧ (eq_ p p = true ↔ is_Some (credentials p)).
Proof.
  unfold eq_. repeat split.
  - destruct (credentials p), (credentials q); cbn;
      rewrite ?andb_false_r; try done.
    by rewrite (bool_decide_ext (class_name p = class_name q)
                  (class_name q = class_name p)),
               (bool_decide_ext (c = c0) (c0 = c)).
  - intros [H1 H2]%andb_true_iff [H3 H4]%andb_true_iff.
    apply bool_decide_eq_true in H1, H3.
    destruct (credentials p), (credentials q), (credentials r); try done.
    apply bool_decide_eq_true in H2, H4. subst.
    rewrite H1, H3. by rewrite !bool_decide_eq_true_2.
  - intros [_ H2]%andb_true_iff. by destruct (credentials p).
  - intros [c Hc]. rewrite Hc. by rewrite !bool_decide_eq_true_2.
Qed.

End Objects.

End IdentityProps.

(* ===================================================================== *)
(** ** Properties of naming, conflicts and transfers *)
(* ===================================================================== *)

Module ProviderProps.
Import Exceptions Paths PathsProps Provider MemoryProvider.

Notation "'let*' x ':=' m 'in' k" := (bind m (λ x, k))
  (at level 10, x name, m at level 100, k at level 200, only parsing).

(** Reads off the two components of an equation between runs. *)
Ltac pair_inv H := inversion H; subst; clear H.

Section Generic.
Context {St : Type}.
Implicit Types (self dest : Backend St) (w : World St).

Lemma existing_found r : existing (Found r) = true.
Proof. destruct r as [m|[|m l]]; reflexivity. Qed.

Lemma existing_absent : existing Absent = false.
Proof. reflexivity. Qed.

Lemma first_test x :
  negb (truthy x) && negb (is_empty_list x) = negb (existing x).
Proof. unfold existing. by destruct (truthy x), (is_empty_list x). Qed.

Lemma exists_run self path w :
  exists_ self path w
  = (exists_answer (metadata self (deref path w) (storage w)).1,
     after_call (CallMetadata (NAME self) (deref path w))
                (metadata self (deref path w) (storage w)).2 w).
Proof.
  unfold exists_, bind, catch, read, do_metadata, call, exists_answer, swallowed,
    after_call, ret, raise.
  destruct (metadata self (deref path w) (storage w)) as [[e|r] s']; cbn [fst snd]; [|done].
  destruct (isinstance e NotFoundError); cbn [orb]; [done|].
  destruct (isinstance e MetadataError); cbn [andb]; [|done].
  destruct (decide (code e = 404)) as [H|H].
  - rewrite (bool_decide_eq_false_2 (code e ≠ 404)) by tauto.
    by rewrite bool_decide_eq_true_2.
  - rewrite (bool_decide_eq_true_2 (code e ≠ 404)) by done.
    by rewrite bool_decide_eq_false_2.
Qed.

Lemma exists_heap self path w :
  heap (exists_ self path w).2 = heap w ∧ next (exists_ self path w).2 = next w.
Proof. rewrite exists_run. done. Qed.

(** *** The heap under the primitive steps *)

Lemma deref_modify_same l f w : deref l (modify l f w).2 = f (deref l w).
Proof. unfold deref, modify; cbn. by rewrite lookup_insert_eq. Qed.

Lemma deref_modify_other l l' f w : l' ≠ l → deref l' (modify l f w).2 = deref l' w.
Proof. intros H. unfold deref, modify; cbn. by rewrite lookup_insert_ne. Qed.

Lemma deref_alloc_new p w : deref (next w) (alloc p w).2 = p.
Proof. unfold deref, alloc; cbn. by rewrite lookup_insert_eq. Qed.

Lemma deref_alloc_old l p w : l ≠ next w → deref l (alloc p w).2 = deref l w.
Proof. intros H. unfold deref, alloc; cbn. by rewrite lookup_insert_ne. Qed.

Lemma deref_exists self path l w : deref l (exists_ self path w).2 = deref l w.
Proof. unfold deref. by rewrite (proj1 (exists_heap self path w)). Qed.

Lemma next_exists self path w : next (exists_ self path w).2 = next w.
Proof. apply exists_heap. Qed.

Lemma storage_exists self path w :
  storage (exists_ self path w).2 = (metadata self (deref path w) (storage w)).2.
Proof. by rewrite exists_run. Qed.

(** *** [handle_name_conflict], step by step *)

Lemma handle_name_conflict_run fuel self path conflict w :
  handle_name_conflict fuel self path conflict w
  = match (exists_ self path w).1 with
    | Ok ex =>
        if negb (existing ex) || bool_decide (conflict = "replace")
        then (Ok (path, ex), (exists_ self path w).2)
        else if bool_decide (conflict = "warn")
        then (Err (mkExn NamingConflict 409 (Some path)), (exists_ self path w).2)
        else match keep_loop fuel self path (exists_ self path w).2 with
             | (Ok _, w') => (Ok (path, Absent), w')
             | (Err e, w') => (Err e, w')
             | (Out, w') => (Out, w')
             end
    | Err e => (Err e, (exists_ self path w).2)
    | Out => (Out, (exists_ self path w).2)
    end.
Proof.
  unfold handle_name_conflict, bind at 1.
  destruct (exists_ self path w) as [[ex|e|] w1]; cbn [fst snd]; try done.
  rewrite first_test.
  destruct (negb (existing ex) || bool_decide (conflict = "replace")); [done|].
  destruct (bool_decide (conflict = "warn")); [done|].
  unfold bind. by destruct (keep_loop fuel self path w1) as [[| |] ?].
Qed.

Lemma keep_loop_step fuel self path w :
  keep_loop (S fuel) self path w
  = let w1 := (modify path increment_name w).2 in
    let p := deref path w1 in
    match parent p with
    | None => (Err (mkExn AttributeError 0 None), w1)
    | Some b =>
        let w2 := (alloc (child b (name p) (is_dir p)) w1).2 in
        match (exists_ self (next w1) w2).1 with
        | Ok ex =>
            if negb (existing ex) then (Ok tt, (exists_ self (next w1) w2).2)
            else keep_loop fuel self path (exists_ self (next w1) w2).2
        | Err e => (Err e, (exists_ self (next w1) w2).2)
        | Out => (Out, (exists_ self (next w1) w2).2)
        end
    end.
Proof.
  cbn [keep_loop]. unfold bind at 1. cbn [modify fst snd].
  unfold bind at 1. unfold read at 1. cbn zeta.
  set (w1 := (modify path increment_name w).2).
  change (mkWorld _ _ _ _) with w1.
  destruct (parent (deref path w1)) as [b|] eqn:Hp.
  - unfold bind at 1, revalidate_path, alloc. cbn [fst snd].
    unfold bind at 1.
    destruct (exists_ self (next w1) _) as [[ex| e |] w3]; cbn [fst snd]; try done.
    fold (existing ex). by destruct (existing ex).
  - unfold bind at 1, revalidate_path, raise. done.
Qed.

Lemma bump_succ_r k p : bump k (increment_name p) = bump (S k) p.
Proof. unfold bump. by rewrite Nat.iter_succ_r. Qed.

Lemma next_modify l f w : next (modify l f w).2 = next w.
Proof. reflexivity. Qed.

Lemma next_alloc p w : next (alloc p w).2 = S (next w).
Proof. reflexivity. Qed.

Lemma storage_modify l f w : storage (modify l f w).2 = storage w.
Proof. reflexivity. Qed.

Lemma storage_alloc p w : storage (alloc p w).2 = storage w.
Proof. reflexivity. Qed.

Lemma exists_err self path w e :
  (exists_ self path w).1 = Err e → from_metadata self e.
Proof.
  rewrite exists_run. cbn [fst]. unfold exists_answer.
  destruct (metadata self (deref path w) (storage w)) as [[e'|r] s'] eqn:E; cbn [fst]; [|done].
  destruct (swallowed e'); [done|]. intros [= ->].
  exists (deref path w), (storage w). by rewrite E.
Qed.

(** The renaming loop only touches the object [path]: it bumps its counter
    once per round, and allocates the candidates it tests. *)
Lemma keep_loop_frame self path : ∀ fuel w r w',
  allocated path w →
  keep_loop fuel self path w = (r, w') →
  ∃ k, (k ≤ fuel)%nat ∧ ((0 < fuel)%nat → (1 ≤ k)%nat)
       ∧ deref path w' = bump k (deref path w)
       ∧ (next w ≤ next w')%nat
       ∧ (∀ l, (l < next w)%nat → l ≠ path → deref l w' = deref l w)
       ∧ (∀ e, r = Err e → cls e = AttributeError ∨ from_metadata self e).
Proof.
  unfold allocated.
  induction fuel as [|fuel IH]; intros w r w' Hpath Hrun.
  - cbn in Hrun. pair_inv Hrun. exists 0%nat. repeat split; try done; lia.
  - rewrite keep_loop_step in Hrun. cbn zeta in Hrun.
    set (w1 := (modify path increment_name w).2) in *.
    assert (deref path w1 = increment_name (deref path w)) as Hd1
      by apply deref_modify_same.
    assert (∀ l, l ≠ path → deref l w1 = deref l w) as Ho1
      by (intros; by apply deref_modify_other).
    destruct (parent (deref path w1)) as [b|].
    + set (w2 := (alloc _ w1).2) in *.
      assert (∀ l, (l < next w)%nat → deref l w2 = deref l w1) as Ho2.
      { intros l Hl. apply deref_alloc_old. change (next w1) with (next w). lia. }
      set (w3 := (exists_ self (next w1) w2).2) in *.
      assert (∀ l, deref l w3 = deref l w2) as Ho3 by (intros; apply deref_exists).
      assert (next w3 = S (next w)) as Hn3 by (unfold w3; by rewrite next_exists).
      destruct ((exists_ self (next w1) w2).1) as [ex|e|] eqn:Hex.
      * destruct (negb (existing ex)).
        -- pair_inv Hrun. exists 1%nat. repeat split; try done; try lia.
           ++ by rewrite Ho3, Ho2, Hd1.
           ++ intros l Hl Hne. by rewrite Ho3, Ho2, Ho1.
        -- apply IH in Hrun; [|lia].
           destruct Hrun as (k & Hk & _ & Hd & Hn & Ho & He).
           exists (S k). repeat split; try done; try lia.
           ++ by rewrite Hd, Ho3, Ho2, Hd1, bump_succ_r.
           ++ intros l Hl Hne. rewrite Ho by (done || lia). by rewrite Ho3, Ho2, Ho1.
      * pair_inv Hrun. exists 1%nat. repeat split; try done; try lia.
        -- by rewrite Ho3, Ho2, Hd1.
        -- intros l Hl Hne. by rewrite Ho3, Ho2, Ho1.
        -- intros e' [= <-]. right. by apply (exists_err self (next w1) w2).
      * pair_inv Hrun. exists 1%nat. repeat split; try done; try lia.
        -- by rewrite Ho3, Ho2, Hd1.
        -- intros l Hl Hne. by rewrite Ho3, Ho2, Ho1.
    + pair_inv Hrun. exists 1%nat. repeat split; try done; try lia.
      * intros l Hl Hne. by apply Ho1.
      * intros e [= <-]. by left.
Qed.

Lemma keep_loop_err self path : ∀ fuel w e w',
  keep_loop fuel self path w = (Err e, w') →
  cls e = AttributeError ∨ from_metadata self e.
Proof.
  induction fuel as [|fuel IH]; intros w e w' Hrun; [done|].
  rewrite keep_loop_step in Hrun. cbn zeta in Hrun.
  destruct (parent _) as [b|].
  - destruct (exists_ self _ _).1 as [ex|e'|] eqn:Hex.
    + destruct (negb (existing ex)); [done|]. by eapply IH.
    + pair_inv Hrun. right. by eapply exists_err.
    + done.
  - pair_inv Hrun. by left.
Qed.

(** *** Claims on [exists] and [handle_name_conflict] *)

(** C9: under the policy "replace", [handle_name_conflict] hands back the
    very path object it was given, paired with what [exists] found (the
    metadata, or False), whether or not a node exists there; the object is not
    modified, and an error of the existence check is passed on. *)
Theorem replace_returns_path_unchanged fuel self path w :
  handle_name_conflict fuel self path "replace" w
  = (match exists_answer (metadata self (deref path w) (storage w)).1 with
     | Ok ex => Ok (path, ex)
     | Err e => Err e
     | Out => Out
     end,
     after_call (CallMetadata (NAME self) (deref path w))
                (metadata self (deref path w) (storage w)).2 w)
  ∧ heap (handle_name_conflict fuel self path "replace" w).2 = heap w.
Proof.
  rewrite handle_name_conflict_run, exists_run. cbn [fst snd].
  destruct (exists_answer _) as [ex|e|]; [|done|done].
  rewrite bool_decide_eq_true_2 by done. rewrite orb_true_r. done.
Qed.

(** C5: [handle_name_conflict] raises a [NamingConflict] exactly when the
    policy is "warn" and the existence check finds the path (metadata, or an
    empty listing); the error then carries that path.  Under any other policy,
    "replace" and "keep" among them, no [NamingConflict] comes out.  The
    backend's own [metadata] is taken not to raise [NamingConflict]. *)
Theorem naming_conflict_iff_warn_and_existing fuel self path conflict w e :
  (∀ p s e', (metadata self p s).1 = inl e' → cls e' ≠ NamingConflict) →
  (∃ w', handle_name_conflict fuel self path conflict w = (Err e, w')
         ∧ cls e = NamingConflict)
  ↔ (conflict = "warn"
     ∧ (∃ ex, (exists_ self path w).1 = Ok ex ∧ existing ex = true)
     ∧ e = mkExn NamingConflict 409 (Some path)).
Proof.
  intros Hmeta. rewrite handle_name_conflict_run. split.
  - intros (w' & Hrun & Hcls).
    destruct (exists_ self path w).1 as [ex|e'|] eqn:Hex.
    + destruct (existing ex) eqn:Hexi; cbn [negb orb] in Hrun; [|done].
      destruct (bool_decide (conflict = "replace")); [done|].
      destruct (bool_decide (conflict = "warn")) eqn:Hw.
      * apply bool_decide_eq_true in Hw. pair_inv Hrun. eauto.
      * destruct (keep_loop fuel self path _) as [[?|e'|] w''] eqn:Hk; [done| |done].
        pair_inv Hrun. apply keep_loop_err in Hk as [Hk|(p & s & Hk)].
        -- congruence.
        -- by apply Hmeta in Hk.
    + pair_inv Hrun. apply exists_err in Hex as (p & s & Hk). by apply Hmeta in Hk.
    + done.
  - intros (-> & (ex & -> & Hexi) & ->). rewrite Hexi. cbn. eauto.
Qed.

(** C6: [exists] asks [metadata] once; a result is returned as it is, a
    [NotFoundError] or a [MetadataError] coded 404 becomes False, and any other
    error is passed on.  An empty listing is a result: for a path whose
    [metadata] is the empty list, "warn" raises the naming conflict and any
    policy other than "replace" and "warn" ("keep") goes on to increment the
    name, while "replace" returns the path with the empty listing. *)
Theorem exists_and_empty_listing fuel self path conflict w :
  let p := deref path w in
  let answer := metadata self p (storage w) in
  let w1 := after_call (CallMetadata (NAME self) p) answer.2 w in
  (∀ r, answer.1 = inr r → exists_ self path w = (Ok (Found r), w1))
  ∧ (∀ e, answer.1 = inl e →
          isinstance e NotFoundError = true
          ∨ (isinstance e MetadataError = true ∧ code e = 404) →
          exists_ self path w = (Ok Absent, w1))
  ∧ (∀ e, answer.1 = inl e →
          isinstance e NotFoundError = false →
          isinstance e MetadataError = false ∨ code e ≠ 404 →
          exists_ self path w = (Err e, w1))
  ∧ (answer.1 = inr (Many []) →
       handle_name_conflict fuel self path "warn" w
       = (Err (mkExn NamingConflict 409 (Some path)), w1)
       ∧ handle_name_conflict fuel self path "replace" w
         = (Ok (path, Found (Many [])), w1)
       ∧ (conflict ≠ "replace" → conflict ≠ "warn" →
          allocated path w → (0 < fuel)%nat →
          (count (leaf p)
           < count (leaf (deref path (handle_name_conflict fuel self path conflict w).2)))%nat)).
Proof.
  intros p answer w1. repeat split.
  - intros r Hr. rewrite exists_run. fold p answer w1. by rewrite Hr.
  - intros e He Hsw. rewrite exists_run. fold p answer w1. rewrite He. cbn.
    unfold swallowed. destruct Hsw as [->|[-> ->]]; [done|].
    rewrite bool_decide_eq_true_2 by done. by rewrite orb_true_r.
  - intros e He Hnf Hme. rewrite exists_run. fold p answer w1. rewrite He. cbn.
    unfold swallowed. rewrite Hnf. destruct Hme as [->|Hc]; [done|].
    rewrite bool_decide_eq_false_2 by done. by rewrite andb_false_r.
  - rewrite handle_name_conflict_run, exists_run. fold p answer w1.
    cbn [fst snd]. by rewrite H.
  - rewrite handle_name_conflict_run, exists_run. fold p answer w1.
    cbn [fst snd]. by rewrite H.
  - intros Hr Hw Hal Hfuel.
    rewrite handle_name_conflict_run, exists_run. fold p answer w1.
    cbn [fst snd]. rewrite H. cbn.
    rewrite !bool_decide_eq_false_2 by done.
    destruct (keep_loop fuel self path w1) as [r w'] eqn:Hk.
    apply keep_loop_frame in Hk; [|done].
    destruct Hk as (k & _ & Hk1 & Hd & _).
    assert (deref path w' = bump k p) as Hd' by (rewrite Hd; done).
    assert (count (leaf p) < count (leaf (deref path w')))%nat.
    { rewrite Hd', bump_shape. cbn. specialize (Hk1 Hfuel). lia. }
    by destruct r.
Qed.

Lemma deref_after_call l c (s : St) w : deref l (after_call c s w) = deref l w.
Proof. reflexivity. Qed.

(** *** The renaming loop finds the first free candidate *)

Lemma keep_loop_finds self path (p0 b : Path) (s0 : St) :
  (∀ q s, (metadata self q s).2 = s) →
  parent p0 = Some b →
  ∀ n j fuel w,
    deref path w = bump j p0 →
    storage w = s0 →
    allocated path w →
    (∀ i, (j < i < j + S n)%nat → ∃ r, (metadata self (candidate b p0 i) s0).1 = inr r) →
    (∃ e, (metadata self (candidate b p0 (j + S n)) s0).1 = inl e ∧ swallowed e = true) →
    (n < fuel)%nat →
    ∃ w', keep_loop fuel self path w = (Ok tt, w')
          ∧ deref path w' = bump (j + S n) p0
          ∧ storage w' = s0.
Proof.
  intros Hpure Hparent. unfold allocated.
  induction n as [|n IH]; intros j fuel w Hd Hs Hal Hfull Hfree Hfuel;
    (destruct fuel as [|fuel]; [lia|]);
    rewrite keep_loop_step; cbn zeta;
    set (w1 := (modify path increment_name w).2);
    (assert (deref path w1 = bump (S j) p0) as Hd1
       by (unfold w1; rewrite deref_modify_same, Hd; reflexivity));
    rewrite Hd1, parent_bump, Hparent, is_dir_bump;
    fold (candidate b p0 (S j));
    set (w2 := (alloc (candidate b p0 (S j)) w1).2);
    (assert (deref (next w1) w2 = candidate b p0 (S j)) as Hd2
       by apply deref_alloc_new);
    (assert (storage w2 = s0) as Hs2 by done);
    rewrite exists_run; cbn [fst snd]; rewrite Hd2, Hs2.
  - destruct Hfree as (e & He & Hsw). replace (j + 1)%nat with (S j) in * by lia.
    rewrite He. cbn [exists_answer]. rewrite Hsw, existing_absent. cbn [negb].
    eexists; split; [reflexivity|]. split.
    + rewrite deref_after_call. unfold w2.
      rewrite deref_alloc_old by (change (next w1) with (next w); lia). done.
    + cbn [after_call storage]. apply Hpure.
  - destruct (Hfull (S j) ltac:(lia)) as (r & Hr).
    rewrite Hr. cbn [exists_answer]. rewrite existing_found. cbn [negb].
    replace (j + S (S n))%nat with (S j + S n)%nat in * by lia.
    apply IH; try done; try lia.
    + rewrite deref_after_call. unfold w2.
      rewrite deref_alloc_old by (change (next w1) with (next w); lia). done.
    + cbn [after_call storage]. apply Hpure.
    + cbn [after_call next]. change (next w2) with (S (next w)). lia.
    + intros i Hi. apply Hfull. lia.
Qed.

(** C4, as the code has it: for a path that exists, under a policy other than
    "replace" and "warn" ("keep"), when the candidates 1 .. k-1 exist and
    candidate k does not, [handle_name_conflict] increments the name k times,
    revalidating each candidate against the parent, and returns the path
    object, now named like candidate k, paired with False, the result of the
    last existence check (not with true).  That name differs from the name
    the path came with and from the name of every candidate tried before.
    [metadata] is taken to leave the storage as it is. *)
Theorem keep_returns_first_free_candidate fuel self path conflict w (b : Path) (k : nat) :
  let p := deref path w in
  (∀ q s, (metadata self q s).2 = s) →
  allocated path w →
  parent p = Some b →
  conflict ≠ "replace" → conflict ≠ "warn" →
  (∃ r, (metadata self p (storage w)).1 = inr r) →
  (∀ i, (0 < i < k)%nat →
        ∃ r, (metadata self (candidate b p i) (storage w)).1 = inr r) →
  (∃ e, (metadata self (candidate b p k) (storage w)).1 = inl e ∧ swallowed e = true) →
  (0 < k ≤ fuel)%nat →
  ∃ w', handle_name_conflict fuel self path conflict w = (Ok (path, Absent), w')
        ∧ deref path w' = bump k p
        ∧ name (deref path w') = name (candidate b p k)
        ∧ name (deref path w') ≠ name p
        ∧ (∀ i, (0 < i < k)%nat → name (deref path w') ≠ name (candidate b p i))
        ∧ storage w' = storage w.
Proof.
  intros p Hpure Hal Hparent Hr Hw (r & Hex) Hfull Hfree Hk.
  rewrite handle_name_conflict_run, exists_run. fold p. cbn [fst snd].
  rewrite Hex. cbn [exists_answer]. rewrite existing_found. cbn [negb orb].
  rewrite !bool_decide_eq_false_2 by done.
  set (w1 := after_call _ _ w).
  destruct (keep_loop_finds self path p b (storage w) Hpure Hparent (k - 1) 0 fuel w1)
    as (w' & Hrun & Hd & Hs); try done; try lia.
  - cbn. apply Hpure.
  - intros i Hi. apply Hfull. lia.
  - replace (0 + S (k - 1))%nat with k by lia. done.
  - replace (0 + S (k - 1))%nat with k in Hd by lia.
    rewrite Hrun. exists w'. repeat split; try done.
    + rewrite Hd. unfold candidate. by rewrite name_child.
    + rewrite Hd. change p with (bump 0 p) at 2. intros H%name_bump_inj. lia.
    + intros i Hi. rewrite Hd. unfold candidate. rewrite name_child.
      intros H%name_bump_inj. lia.
Qed.

(** *** The recursive tree operation: the destination is deleted first *)

Lemma bind_ok_inv {A B} (m : M A) (k : A → M B) w x w' :
  bind m k w = (Ok x, w') →
  ∃ a w1, m w = (Ok a, w1) ∧ k a w1 = (Ok x, w').
Proof.
  unfold bind. destruct (m w) as [[a|e|] w1]; [|done|done]. eauto.
Qed.

Lemma delete_dest_run dest dst w :
  delete_dest dest dst w
  = (created_flag (delete dest (deref dst w) (storage w)).1,
     after_call (CallDelete (NAME dest) (deref dst w))
                (delete dest (deref dst w) (storage w)).2 w).
Proof.
  unfold delete_dest, bind, catch, read, do_delete, call, created_flag, after_call,
    ret, raise.
  destruct (delete dest (deref dst w) (storage w)) as [[e|[]] s']; cbn [fst snd]; [|done].
  destruct (isinstance e ProviderError); cbn [andb]; [|done].
  destruct (decide (code e = 404)) as [H|H].
  - rewrite (bool_decide_eq_false_2 (code e ≠ 404)) by tauto.
    by rewrite bool_decide_eq_true_2.
  - rewrite (bool_decide_eq_true_2 (code e ≠ 404)) by done.
    by rewrite bool_decide_eq_false_2.
Qed.

Lemma folder_file_op_start opc func self dest src dst w :
  is_dir (deref src w) = true →
  _folder_file_op opc func self dest src dst w
  = match delete_dest dest dst w with
    | (Ok created, w1) =>
        (let* dp := read dst in
         let* folder := do_create_folder dest dp in
         let* dest_path' := revalidate_path (parent dp) (name dp) (is_dir dp) in
         let* sp' := read src in
         let* items := do_metadata self sp' in
         match items with
         | One _ => raise (mkExn TypeError 0 None)
         | Many l =>
             if bool_decide (opc = 0) then raise (mkExn ValueError 0 None)
             else
               let* children :=
                 run_batches func src dest_path'
                   (if bool_decide (opc < 0) then []
                    else map (λ i, slice i (Z.to_nat opc) l)
                             (range_step (length l) (Z.to_nat opc))) in
               ret (set_children children folder, created)
         end) w1
    | (Err e, w1) => (Err e, w1)
    | (Out, w1) => (Out, w1)
    end.
Proof.
  intros Hdir. unfold _folder_file_op. unfold bind at 1, read at 1.
  cbn [fst snd]. rewrite Hdir. cbn [negb]. unfold bind at 1.
  by destruct (delete_dest dest dst w) as [[c|e|] w1].
Qed.

(** The flag a tree operation returns is the one its delete step computed. *)
Lemma folder_file_op_flag opc func self dest src dst w folder created w' :
  is_dir (deref src w) = true →
  _folder_file_op opc func self dest src dst w = (Ok (folder, created), w') →
  (delete_dest dest dst w).1 = Ok created.
Proof.
  intros Hdir. rewrite folder_file_op_start by done.
  destruct (delete_dest dest dst w) as [[c|e|] w1]; [|done|done].
  intros H. cbn [fst].
  apply bind_ok_inv in H as (dp & w2 & _ & H).
  apply bind_ok_inv in H as (fo & w3 & _ & H).
  apply bind_ok_inv in H as (d' & w4 & _ & H).
  apply bind_ok_inv in H as (sp' & w5 & _ & H).
  apply bind_ok_inv in H as (items & w6 & _ & H).
  destruct items as [m|l]; [done|].
  destruct (bool_decide (opc = 0)); [done|].
  apply bind_ok_inv in H as (ch & w7 & _ & H).
  by pair_inv H.
Qed.

(** C7: the tree operation first deletes [dest_path] on the destination.  If
    that raises a provider error coded 404, the flag is true; if it succeeds,
    the flag is false; in both cases the operation goes on and whatever pair
    it returns carries that flag.  Any other error of the delete is raised to
    the caller, and the operation makes no further call. *)
Theorem tree_op_created_flag opc func self dest src dst w :
  let dp := deref dst w in
  let answer := delete dest dp (storage w) in
  let w1 := after_call (CallDelete (NAME dest) dp) answer.2 w in
  is_dir (deref src w) = true →
  (∀ e, answer.1 = inl e → isinstance e ProviderError = true → code e = 404 →
        delete_dest dest dst w = (Ok true, w1)
        ∧ ∀ folder created w',
            _folder_file_op opc func self dest src dst w = (Ok (folder, created), w') →
            created = true)
  ∧ (answer.1 = inr tt →
        delete_dest dest dst w = (Ok false, w1)
        ∧ ∀ folder created w',
            _folder_file_op opc func self dest src dst w = (Ok (folder, created), w') →
            created = false)
  ∧ (∀ e, answer.1 = inl e → isinstance e ProviderError = false ∨ code e ≠ 404 →
        _folder_file_op opc func self dest src dst w = (Err e, w1)).
Proof.
  intros dp answer w1 Hdir.
  assert (delete_dest dest dst w = (created_flag answer.1, w1)) as Hrun
    by apply delete_dest_run.
  repeat split.
  - rewrite Hrun, H. cbn. rewrite H0. by rewrite bool_decide_eq_true_2.
  - intros folder created w' Hop.
    apply folder_file_op_flag in Hop; [|done].
    rewrite Hrun, H in Hop. cbn in Hop. rewrite H0 in Hop.
    rewrite bool_decide_eq_true_2 in Hop by done. cbn in Hop. congruence.
  - rewrite Hrun, H. done.
  - intros folder created w' Hop.
    apply folder_file_op_flag in Hop; [|done].
    rewrite Hrun, H in Hop. cbn in Hop. congruence.
  - intros e He Hno. rewrite folder_file_op_start, Hrun, He by done. cbn.
    destruct Hno as [->|Hc]; [done|].
    rewrite bool_decide_eq_false_2 by done. by rewrite andb_false_r.
Qed.

(** *** What naming resolution does to the heap *)

Lemma handle_name_conflict_frame fuel self path conflict w r w' :
  allocated path w →
  handle_name_conflict fuel self path conflict w = (r, w') →
  (next w ≤ next w')%nat
  ∧ (∃ k, deref path w' = bump k (deref path w))
  ∧ (∀ l, (l < next w)%nat → l ≠ path → deref l w' = deref l w)
  ∧ (∀ d ex, r = Ok (d, ex) → d = path).
Proof.
  intros Hal. rewrite handle_name_conflict_run.
  pose proof (next_exists self path w) as Hn.
  pose proof (λ l, deref_exists self path l w) as Hd.
  set (w1 := (exists_ self path w).2) in *.
  destruct (exists_ self path w).1 as [ex|e|].
  - destruct (negb (existing ex) || bool_decide (conflict = "replace")).
    { intros H. pair_inv H. repeat split.
      - lia.
      - exists 0%nat. by rewrite Hd.
      - intros. apply Hd.
      - by intros d ex' [= <- _]. }
    destruct (bool_decide (conflict = "warn")).
    { intros H. pair_inv H. repeat split.
      - lia.
      - exists 0%nat. by rewrite Hd.
      - intros. apply Hd.
      - done. }
    destruct (keep_loop fuel self path w1) as [r1 w2] eqn:Hk.
    apply keep_loop_frame in Hk; [|unfold allocated in *; lia].
    destruct Hk as (k & _ & _ & Hdk & Hnk & Hok & _).
    intros H.
    assert (w' = w2) as -> by (destruct r1; by pair_inv H).
    repeat split.
    + lia.
    + exists k. by rewrite Hdk, Hd.
    + intros l Hl Hne. rewrite Hok by (done || lia). apply Hd.
    + intros d ex' ->. destruct r1; by pair_inv H.
  - intros H. pair_inv H. repeat split; try done; try lia.
    exists 0%nat. by rewrite Hd.
  - intros H. pair_inv H. repeat split; try done; try lia.
    exists 0%nat. by rewrite Hd.
Qed.

Lemma is_dir_bump_eq k p q : q = bump k p → is_dir q = is_dir p.
Proof. intros ->. apply is_dir_bump. Qed.

(** Naming resolution returns the caller's object when the destination is a
    file path, and a new object when it is a folder path; it changes no object
    but the one it returns, and never the flag [is_dir] of an object. *)
Lemma handle_naming_frame fuel self src dst rename conflict w r w' :
  allocated dst w →
  handle_naming fuel self src dst rename conflict w = (r, w') →
  (next w ≤ next w')%nat
  ∧ (∀ l, (l < next w)%nat → is_dir (deref l w') = is_dir (deref l w))
  ∧ (∀ d, r = Ok d →
       (is_file (deref dst w) = true → d = dst)
       ∧ (is_file (deref dst w) = false →
          d = next w ∧ ∀ l, (l < next w)%nat → deref l w' = deref l w)).
Proof.
  intros Hal. unfold handle_naming. unfold bind at 1, read at 1. cbn [fst snd].
  unfold bind at 1, read at 1. cbn [fst snd].
  destruct (is_dir (deref src w) && is_file (deref dst w)).
  { intros H. pair_inv H. repeat split; try done. }
  unfold bind at 1.
  destruct (is_file (deref dst w)) eqn:Hfile; cbn [negb].
  - unfold ret at 1. unfold bind.
    destruct (handle_name_conflict fuel self dst conflict w) as [r1 w1] eqn:Hc.
    apply handle_name_conflict_frame in Hc; [|done].
    destruct Hc as (Hn & (k & Hk) & Ho & Hret).
    intros H.
    assert (w' = w1) as -> by (destruct r1; by pair_inv H).
    split; [done|]. split.
    + intros l Hl. destruct (decide (l = dst)) as [->|Hne].
      * by eapply is_dir_bump_eq.
      * by rewrite Ho.
    + intros d ->. split; [|done]. intros _.
      destruct r1 as [[d' ex]| |]; unfold ret in H; pair_inv H. by eapply Hret.
  - unfold revalidate_path.
    set (c := child _ _ _).
    change (alloc c w) with (Ok (next w), (alloc c w).2).
    cbn iota. unfold bind.
    destruct (handle_name_conflict fuel self (next w) conflict (alloc c w).2)
      as [r1 w1] eqn:Hc.
    apply handle_name_conflict_frame in Hc; [|unfold allocated; cbn; lia].
    destruct Hc as (Hn & _ & Ho & Hret).
    rewrite next_alloc in Hn.
    assert (∀ l, (l < next w)%nat → deref l w1 = deref l w) as Hold.
    { intros l Hl. rewrite Ho by (rewrite ?next_alloc; lia).
      apply deref_alloc_old. lia. }
    intros H.
    assert (w' = w1) as -> by (destruct r1; by pair_inv H).
    split; [lia|]. split.
    + intros l Hl. by rewrite Hold.
    + intros d ->. split; [done|]. intros _. split; [|done].
      destruct r1 as [[d' ex]| |]; unfold ret in H; pair_inv H. by eapply Hret.
Qed.

(** *** The single-file copy path *)

Lemma copy_naming_split fuel opc self dest src dst rename conflict w :
  copy (S fuel) opc self dest src dst rename conflict true w
  = match handle_naming (S fuel) dest src dst rename conflict w with
    | (Ok d, w1) => copy (S fuel) opc self dest src d rename conflict false w1
    | (Err e, w1) => (Err e, w1)
    | (Out, w1) => (Out, w1)
    end.
Proof.
  cbn [copy]. unfold bind at 1.
  by destruct (handle_naming (S fuel) dest src dst rename conflict w) as [[d|e|] w1].
Qed.

Lemma copy_naming_off fuel opc self dest src dst rename conflict rename' conflict' :
  copy fuel opc self dest src dst rename conflict false
  = copy fuel opc self dest src dst rename' conflict' false.
Proof. by destruct fuel. Qed.

Lemma copy_transfer fuel opc self dest src d rename conflict w st s2 :
  can_intra_copy self (NAME dest) (deref src w) = false →
  is_dir (deref src w) = false →
  download self (deref src w) (storage w) = (inr st, s2) →
  copy (S fuel) opc self dest src d rename conflict false w
  = do_upload dest st (deref d (before_upload self src d st s2 w))
              (before_upload self src d st s2 w).
Proof.
  intros Hintra Hfile Hdl. cbn [copy]. unfold bind at 1, ret at 1.
  unfold bind at 1, read at 1. cbn [fst snd]. rewrite Hintra, Hfile.
  unfold bind at 1, do_download, call. rewrite Hdl.
  unfold before_upload, after_call.
  destruct (suggested_name st) as [n|]; unfold bind at 1.
  - cbn [modify fst snd]. unfold bind, read. done.
  - unfold ret at 1. unfold bind, read. done.
Qed.

Lemma world_after_upload dest st p w :
  (do_upload dest st p w).2
  = after_call (CallUpload (NAME dest) st p) (upload dest st p (storage w)).2 w.
Proof.
  unfold do_upload, call, after_call.
  by destruct (upload dest st p (storage w)) as [r s'].
Qed.

(** C10, as the code has it: on the single-file path, when the download
    stream suggests a name, [copy] renames in place the path object it uploads
    to, and uploads under that name; without a suggested name no path object
    changes.  The object renamed is the caller's [dest_path] when naming
    resolution is off, or when it is on and [dest_path] is a file path (the
    resolver returns the same object).  When it is on and [dest_path] is a
    folder path, the resolver builds a new child object: that one is renamed,
    and the caller's [dest_path] is left as it was. *)
Theorem copy_renames_upload_target fuel opc self dest src dst rename conflict
    (naming : bool) w d w1 st s2 :
  (∀ p, can_intra_copy self (NAME dest) p = false) →
  allocated dst w →
  (if naming then handle_naming (S fuel) dest src dst rename conflict else ret dst) w
    = (Ok d, w1) →
  is_dir (deref src w1) = false →
  download self (deref src w1) (storage w1) = (inr st, s2) →
  let w' := (copy (S fuel) opc self dest src dst rename conflict naming w).2 in
  (∀ n, suggested_name st = Some n →
        name (deref d w') = n
        ∧ last (log w') = Some (CallUpload (NAME dest) st (Paths.rename n (deref d w1))))
  ∧ (suggested_name st = None →
        heap w' = heap w1
        ∧ last (log w') = Some (CallUpload (NAME dest) st (deref d w1)))
  ∧ (naming = false → d = dst)
  ∧ (naming = true → is_file (deref dst w) = true → d = dst)
  ∧ (naming = true → is_file (deref dst w) = false →
        d ≠ dst ∧ deref dst w' = deref dst w).
Proof.
  intros Hintra Hal Hres Hfile Hdl w'.
  assert (w' = (copy (S fuel) opc self dest src d rename conflict false w1).2) as Hw'.
  { unfold w'. destruct naming.
    - by rewrite copy_naming_split, Hres.
    - by pair_inv Hres. }
  rewrite (copy_transfer _ _ _ _ _ _ _ _ _ st s2) in Hw' by done.
  rewrite world_after_upload in Hw'.
  clearbody w'. subst w'.
  split; [|split; [|split; [|split]]].
  - intros n Hn. unfold before_upload. rewrite Hn.
    rewrite !deref_after_call, !deref_modify_same, !deref_after_call.
    split; [apply name_rename|].
    cbn [after_call log]. by rewrite last_snoc.
  - intros Hn. unfold before_upload. rewrite Hn. split; [done|].
    cbn [after_call log]. by rewrite last_snoc.
  - intros ->. by pair_inv Hres.
  - intros -> Hf. apply handle_naming_frame in Hres as (_ & _ & Hret); [|done].
    by apply (Hret d).
  - intros -> Hf. apply handle_naming_frame in Hres as (Hn & _ & Hret); [|done].
    destruct (Hret d eq_refl) as [_ Hnew]. destruct (Hnew Hf) as [-> Hold].
    unfold allocated in Hal. split; [lia|].
    rewrite deref_after_call. unfold before_upload.
    destruct (suggested_name st) as [n|].
    + rewrite deref_modify_other by lia. rewrite deref_after_call. by apply Hold.
    + rewrite deref_after_call. by apply Hold.
Qed.

(** *** Move and copy-then-delete *)

Lemma copy_then_delete_run fuel opc self dest src dst rename conflict naming w :
  copy_then_delete fuel opc self dest src dst rename conflict naming w
  = then_delete self src (copy fuel opc self dest src dst rename conflict naming w).
Proof.
  unfold copy_then_delete, then_delete. unfold bind at 1.
  destruct (copy fuel opc self dest src dst rename conflict naming w) as [[x|e|] w1];
    try done.
  unfold bind, read, do_delete, call, after_call, ret. cbn [fst snd].
  by destruct (delete self (deref src w1) (storage w1)) as [[e|[]] s'].
Qed.

Lemma move_file_after_naming fuel opc self dest src d rename conflict
    (naming : bool) w1 (k : nat → M (Meta * bool)) :
  (∀ p, can_intra_move self (NAME dest) p = false) →
  is_dir (deref src w1) = false →
  (let* sp := read src in
   if can_intra_move self (NAME dest) sp then intra_move self dest src d
   else
     let* r := (if is_dir sp then k d
                else if naming then
                  copy (S fuel) opc self dest src d None "replace" false
                else copy (S fuel) opc self dest src d rename conflict false) in
     let* sp' := read src in
     let* _ := do_delete self sp' in
     ret r) w1
  = then_delete self src (copy (S fuel) opc self dest src d rename conflict false w1).
Proof.
  intros Hintra Hfile. unfold bind at 1, read at 1. cbn [fst snd].
  rewrite Hintra, Hfile.
  assert ((if naming then copy (S fuel) opc self dest src d None "replace" false
           else copy (S fuel) opc self dest src d rename conflict false)
          = copy (S fuel) opc self dest src d rename conflict false) as ->.
  { destruct naming; [apply copy_naming_off|done]. }
  unfold then_delete. unfold bind at 1.
  destruct (copy (S fuel) opc self dest src d rename conflict false w1) as [[x|e|] w2];
    try done.
  unfold bind, read, do_delete, call, after_call, ret. cbn [fst snd].
  by destruct (delete self (deref src w2) (storage w2)) as [[e|[]] s'].
Qed.

(** C3, as the code has it: for a source that is a file path and a
    destination without intra-move fast path, [move] is copy followed by
    delete of the source, as results and as worlds (heap, storage and log of
    backend calls).  So when copy returns, move returns the same pair after
    the one extra call deleting the source, unless that delete raises; and
    when copy raises, move raises the same error in the world copy left,
    without calling delete. *)
Theorem move_file_is_copy_then_delete fuel opc self dest src dst rename conflict
    (naming : bool) w :
  (∀ p, can_intra_move self (NAME dest) p = false) →
  allocated src w → allocated dst w →
  is_dir (deref src w) = false →
  move fuel opc self dest src dst rename conflict naming w
    = copy_then_delete fuel opc self dest src dst rename conflict naming w
  ∧ (∀ e w', copy fuel opc self dest src dst rename conflict naming w = (Err e, w') →
             move fuel opc self dest src dst rename conflict naming w = (Err e, w'))
  ∧ (∀ x w', copy fuel opc self dest src dst rename conflict naming w = (Ok x, w') →
             move fuel opc self dest src dst rename conflict naming w
             = (match (delete self (deref src w') (storage w')).1 with
                | inr _ => Ok x
                | inl e => Err e
                end,
                after_call (CallDelete (NAME self) (deref src w'))
                           (delete self (deref src w') (storage w')).2 w')).
Proof.
  intros Hintra Hsrc Hdst Hfile.
  assert (move fuel opc self dest src dst rename conflict naming w
          = then_delete self src (copy fuel opc self dest src dst rename conflict naming w))
    as Heq.
  { destruct fuel as [|fuel]; [done|].
    destruct naming.
    - rewrite copy_naming_split. cbn [move]. unfold bind at 1.
      destruct (handle_naming (S fuel) dest src dst rename conflict w)
        as [[d|e|] w1] eqn:Hn; try done.
      apply handle_naming_frame in Hn as (_ & Hdir & _); [|done].
      apply (move_file_after_naming fuel opc self dest src d rename conflict true w1
               (λ d, _folder_file_op opc
                       (λ s d', move fuel opc self dest s d' None "replace" false)
                       self dest src d)); [done|].
      rewrite Hdir by done. done.
    - cbn [move]. unfold bind at 1, ret at 1.
      by apply (move_file_after_naming fuel opc self dest src dst rename conflict false w
               (λ d, _folder_file_op opc
                       (λ s d', move fuel opc self dest s d' None "replace" false)
                       self dest src d)). }
  split; [by rewrite copy_then_delete_run|].
  split.
  - intros e w' Hc. by rewrite Heq, Hc.
  - intros x w' Hc. by rewrite Heq, Hc.
Qed.

(** *** Further properties of naming resolution *)

Lemma parent_child (b : Path) n f :
  is_dir b = true → parent (child b n f) = Some b.
Proof.
  intros Hb. unfold parent, child. cbn [init].
  rewrite rev_app_distr. cbn. rewrite rev_involutive.
  destruct b as [i l d]. cbn in *. by subst.
Qed.

(** X10: when [metadata] answers with a [NotFoundError] or a [MetadataError]
    coded 404, [handle_name_conflict] returns the path object it was given,
    paired with False, under every policy, "warn" and "keep" included; no
    path object changes and the existence check is the only backend call. *)
Theorem absent_path_returned_as_is fuel self path conflict w e :
  (metadata self (deref path w) (storage w)).1 = inl e →
  swallowed e = true →
  handle_name_conflict fuel self path conflict w
  = (Ok (path, Absent),
     after_call (CallMetadata (NAME self) (deref path w))
                (metadata self (deref path w) (storage w)).2 w).
Proof.
  intros He Hsw. rewrite handle_name_conflict_run, exists_run. cbn [fst snd].
  rewrite He. cbn [exists_answer]. rewrite Hsw. done.
Qed.

(** X11: a directory cannot be copied or moved onto a file path: naming
    resolution raises [ValueError] before any backend is called, and [copy] and
    [move] with naming resolution on pass it on, leaving storage, path objects
    and call log as they were. *)
Theorem folder_onto_file_rejected fuel opc self dest src dst rename conflict w :
  is_dir (deref src w) = true →
  is_file (deref dst w) = true →
  handle_naming fuel dest src dst rename conflict w = (Err (mkExn ValueError 0 None), w)
  ∧ copy (S fuel) opc self dest src dst rename conflict true w
    = (Err (mkExn ValueError 0 None), w)
  ∧ move (S fuel) opc self dest src dst rename conflict true w
    = (Err (mkExn ValueError 0 None), w).
Proof.
  intros Hs Hd.
  assert (∀ f, handle_naming f dest src dst rename conflict w
               = (Err (mkExn ValueError 0 None), w)) as Hn.
  { intros f. unfold handle_naming. unfold bind at 1, read at 1. cbn [fst snd].
    unfold bind at 1, read at 1. cbn [fst snd]. by rewrite Hs, Hd. }
  split; [apply Hn|]. split.
  - rewrite copy_naming_split. by rewrite Hn.
  - cbn [move]. unfold bind at 1. by rewrite Hn.
Qed.

(** X12: onto a folder path, naming resolution builds a new path object, the
    child of the destination named [rename] when that is given and not empty,
    and like the source otherwise, a folder exactly when the source is one.
    It returns that object when the policy is "replace" or nothing exists
    under that name, after one existence check; an error of that check is
    passed on.  The caller's path objects are left as they were. *)
Theorem naming_into_folder fuel self src dst rename conflict w :
  let c := child (deref dst w) (or_name rename (name (deref src w)))
                 (is_dir (deref src w)) in
  let answer := metadata self c (storage w) in
  is_dir (deref dst w) = true →
  conflict = "replace" ∨ (∃ e, answer.1 = inl e ∧ swallowed e = true) →
  handle_naming fuel self src dst rename conflict w
  = (match exists_answer answer.1 with
     | Ok _ => Ok (next w)
     | Err e => Err e
     | Out => Out
     end,
     after_call (CallMetadata (NAME self) c) answer.2 (alloc c w).2)
  ∧ deref (next w) (handle_naming fuel self src dst rename conflict w).2 = c
  ∧ name c = or_name rename (name (deref src w))
  ∧ is_dir c = is_dir (deref src w)
  ∧ parent c = Some (deref dst w)
  ∧ (∀ l, l ≠ next w →
          deref l (handle_naming fuel self src dst rename conflict w).2 = deref l w).
Proof.
  intros c answer Hd Hpol.
  assert (handle_naming fuel self src dst rename conflict w
          = (match exists_answer answer.1 with
             | Ok _ => Ok (next w)
             | Err e => Err e
             | Out => Out
             end,
             after_call (CallMetadata (NAME self) c) answer.2 (alloc c w).2)) as Hrun.
  { unfold handle_naming. unfold bind at 1, read at 1. cbn [fst snd].
    unfold bind at 1, read at 1. cbn [fst snd].
    unfold is_file. rewrite Hd. rewrite andb_false_r. cbn [negb].
    unfold bind at 1, revalidate_path. fold c.
    change (alloc c w) with (Ok (next w), (alloc c w).2). cbn iota.
    unfold bind at 1.
    rewrite handle_name_conflict_run, exists_run. cbn [fst snd].
    rewrite deref_alloc_new, storage_alloc. fold answer.
    destruct Hpol as [->|(e & He & Hsw)].
    - destruct (exists_answer answer.1) as [ex|e|]; [|done|done].
      rewrite bool_decide_eq_true_2 by done. by rewrite orb_true_r.
    - rewrite He. cbn [exists_answer]. rewrite Hsw. done. }
  split; [exact Hrun|]. rewrite Hrun. cbn [snd].
  split; [by rewrite deref_after_call, deref_alloc_new|].
  split; [apply name_child|]. split; [done|].
  split; [by apply parent_child|].
  intros l Hl. by rewrite deref_after_call, deref_alloc_old.
Qed.

(** X13: for a source that is a file path, onto a file path, under the
    policy "replace", naming resolution returns the destination path object
    itself, whatever the name of the source and [rename], after one existence
    check; no path object is created or changed. *)
Theorem naming_onto_file_replace fuel self src dst rename w :
  is_file (deref dst w) = true →
  is_dir (deref src w) = false →
  handle_naming fuel self src dst rename "replace" w
  = (match exists_answer (metadata self (deref dst w) (storage w)).1 with
     | Ok _ => Ok dst
     | Err e => Err e
     | Out => Out
     end,
     after_call (CallMetadata (NAME self) (deref dst w))
                (metadata self (deref dst w) (storage w)).2 w).
Proof.
  intros Hd Hs. unfold handle_naming. unfold bind at 1, read at 1. cbn [fst snd].
  unfold bind at 1, read at 1. cbn [fst snd]. rewrite Hs, Hd. cbn [andb negb].
  unfold bind at 1, ret at 1. unfold bind at 1.
  destruct (replace_returns_path_unchanged fuel self dst w) as [-> _].
  by destruct (exists_answer _).
Qed.

(** X14: a file copy without fast path and without naming resolution is a
    download followed by an upload.  If the download raises, that error is
    raised, nothing is uploaded and no path object changes; otherwise the
    outcome is that of the upload, made under the destination's name at that
    time, and these are the only two backend calls. *)
Theorem file_copy_downloads_then_uploads fuel opc self dest src dst rename conflict w :
  can_intra_copy self (NAME dest) (deref src w) = false →
  is_dir (deref src w) = false →
  (∀ e s1, download self (deref src w) (storage w) = (inl e, s1) →
     copy (S fuel) opc self dest src dst rename conflict false w
     = (Err e, after_call (CallDownload (NAME self) (deref src w)) s1 w))
  ∧ (∀ st s1, download self (deref src w) (storage w) = (inr st, s1) →
       let w2 := before_upload self src dst st s1 w in
       copy (S fuel) opc self dest src dst rename conflict false w
       = (match (upload dest st (deref dst w2) s1).1 with
          | inr r => Ok r
          | inl e => Err e
          end,
          after_call (CallUpload (NAME dest) st (deref dst w2))
                     (upload dest st (deref dst w2) s1).2 w2)
       ∧ log (copy (S fuel) opc self dest src dst rename conflict false w).2
         = log w ++ [CallDownload (NAME self) (deref src w);
                     CallUpload (NAME dest) st (deref dst w2)]).
Proof.
  intros Hintra Hfile. split.
  - intros e s1 Hdl. cbn [copy]. unfold bind at 1, ret at 1.
    unfold bind at 1, read at 1. cbn [fst snd]. rewrite Hintra, Hfile.
    unfold bind at 1, do_download, call. by rewrite Hdl.
  - intros st s1 Hdl w2.
    assert (storage w2 = s1 ∧ log w2 = log w ++ [CallDownload (NAME self) (deref src w)])
      as [Hs Hl].
    { unfold w2, before_upload. by destruct (suggested_name st). }
    rewrite (copy_transfer _ _ _ _ _ _ _ _ _ st s1) by done. fold w2.
    unfold do_upload, call, after_call. rewrite Hs.
    destruct (upload dest st (deref dst w2) s1) as [[e|r] s2]; cbn [fst snd log];
      rewrite Hl, <- app_assoc; done.
Qed.

(** X15: with an intra-move fast path, [move] is the fast path alone:
    [intra_copy] on the source provider, then the delete of the source, and no
    download or upload.  If [intra_copy] raises, the source is not deleted. *)
Theorem fast_path_move fuel opc self dest src dst rename conflict w :
  can_intra_move self (NAME dest) (deref src w) = true →
  let answer := intra_copy self (NAME dest) (deref src w) (deref dst w) (storage w) in
  let w1 := after_call (CallIntraCopy (NAME self) (deref src w) (deref dst w))
                       answer.2 w in
  move (S fuel) opc self dest src dst rename conflict false w
  = match answer.1 with
    | inl e => (Err e, w1)
    | inr r =>
        (match (delete self (deref src w) answer.2).1 with
         | inr _ => Ok r
         | inl e => Err e
         end,
         after_call (CallDelete (NAME self) (deref src w))
                    (delete self (deref src w) answer.2).2 w1)
    end.
Proof.
  intros Hfast answer w1. cbn [move]. unfold bind at 1, ret at 1.
  unfold bind at 1, read at 1. cbn [fst snd]. rewrite Hfast.
  unfold intra_move. unfold bind at 1, read at 1. cbn [fst snd].
  unfold bind at 1, read at 1. cbn [fst snd].
  unfold bind at 1, do_intra_copy, call. fold answer.
  destruct answer as [[e|r] s1] eqn:Ha; cbn [fst snd]; [done|].
  unfold bind, read, do_delete, call, ret, w1, after_call. cbn [fst snd storage heap].
  change (deref src _) with (deref src w).
  by destruct (delete self (deref src w) s1) as [[e|[]] s2].
Qed.

(** X16: a folder transfer to a provider that keeps the [create_folder] of
    [BaseProvider] fails with the provider error coded 405, and only after
    the node at [dest_path] has been deleted (or found missing); no child is
    listed or transferred. *)
Theorem tree_op_without_folder_support opc func self dest src dst w c :
  create_folder dest = base_create_folder →
  is_dir (deref src w) = true →
  created_flag (delete dest (deref dst w) (storage w)).1 = Ok c →
  _folder_file_op opc func self dest src dst w
  = (Err (mkExn ProviderError 405 None),
     after_call (CallCreateFolder (NAME dest) (deref dst w))
       (delete dest (deref dst w) (storage w)).2
       (after_call (CallDelete (NAME dest) (deref dst w))
                   (delete dest (deref dst w) (storage w)).2 w)).
Proof.
  intros Hbase Hdir Hflag. rewrite folder_file_op_start by done.
  rewrite delete_dest_run, Hflag.
  unfold bind at 1, read at 1. cbn [fst snd].
  unfold bind at 1, do_create_folder, call. rewrite Hbase.
  unfold base_create_folder. cbn [after_call storage]. done.
Qed.

(** *** Batches cover the listing *)

Lemma filter_none {A} (P : A → Prop) `{∀ x, Decision (P x)} (l : list A) :
  (∀ x, x ∈ l → ¬ P x) → filter P l = [].
Proof.
  induction l as [|x l IH]; intros Hl; [done|].
  rewrite filter_cons_False by (apply Hl; left).
  apply IH. intros y Hy. apply Hl. by right.
Qed.

Lemma range_step_small (n step : nat) :
  (0 < n ≤ step)%nat → range_step n step = [0%nat].
Proof.
  intros Hn. unfold range_step.
  destruct n as [|n]; [lia|]. cbn [seq]. rewrite filter_cons_True by (by rewrite Nat.Div0.mod_0_l).
  f_equal. apply filter_none. intros i Hi%elem_of_seq.
  rewrite Nat.mod_small by lia. lia.
Qed.

Lemma range_step_large (n step : nat) :
  (0 < step < n)%nat →
  range_step n step = 0%nat :: map (Nat.add step) (range_step (n - step) step).
Proof.
  intros Hn. unfold range_step.
  replace n with (step + (n - step))%nat at 1 by lia.
  rewrite seq_app, filter_app. cbn [Nat.add].
  fold (range_step step step). rewrite range_step_small by lia. cbn [app]. f_equal.
  rewrite <- (Nat.add_0_r step) at 1. rewrite <- fmap_add_seq.
  generalize (seq 0 (n - step)). intros l. induction l as [|i l IH]; [done|].
  cbn [fmap list_fmap]. rewrite !filter_cons.
  replace ((step + i) mod step)%nat with (i mod step)%nat.
  - destruct (decide (i mod step = 0)%nat); cbn [map]; by rewrite IH.
  - rewrite Nat.add_comm. rewrite <- (Nat.mul_1_l step) at 2.
    by rewrite Nat.Div0.mod_add.
Qed.

Lemma batches_concat {A} (step : nat) : ∀ (k : nat) (l : list A),
  (0 < step)%nat → (length l ≤ k)%nat →
  concat (map (λ i, slice i step l) (range_step (length l) step)) = l
  ∧ Forall (λ b : list A, (0 < length b ≤ step)%nat)
           (map (λ i, slice i step l) (range_step (length l) step)).
Proof.
  induction k as [|k IH]; intros l Hstep Hk.
  - destruct l; [|cbn in Hk; lia]. done.
  - destruct (decide (length l = 0)%nat) as [H0|H0].
    { destruct l; [done|discriminate]. }
    destruct (decide (length l ≤ step)%nat) as [Hsmall|Hlarge].
    + rewrite range_step_small by lia. cbn [map concat]. unfold slice.
      rewrite drop_0, take_ge by done. rewrite List.app_nil_r. split; [done|].
      constructor; [lia|constructor].
    + rewrite range_step_large by lia. cbn [map concat].
      rewrite map_map.
      assert (map (λ i, slice (step + i) step l) (range_step (length l - step) step)
              = map (λ i, slice i step (drop step l))
                    (range_step (length (drop step l)) step)) as ->.
      { rewrite length_drop. apply map_ext. intros i. unfold slice.
        by rewrite drop_drop. }
      destruct (IH (drop step l)) as [Hc Hf]; [done|rewrite length_drop; lia|].
      rewrite Hc. unfold slice at 1. rewrite drop_0, take_drop. split; [done|].
      constructor; [|exact Hf]. unfold slice. rewrite drop_0, length_take. lia.
Qed.

(** X17: for a positive operation-concurrency limit, the batches of the tree
    operation, taken in order, are the listing of the source cut into
    consecutive pieces: every child is in exactly one batch, in listing order,
    and each batch holds at least one and at most [OP_CONCURRENCY] children. *)
Theorem batches_partition {A} (step : nat) (items : list A) :
  (0 < step)%nat →
  concat (map (λ i, slice i step items) (range_step (length items) step)) = items
  ∧ Forall (λ b : list A, (0 < length b ≤ step)%nat)
           (map (λ i, slice i step items) (range_step (length items) step)).
Proof. intros Hstep. by apply (batches_concat step (length items)). Qed.

Lemma batches_partition_witness :
  concat (map (λ i, slice i 2 [1; 2; 3; 4; 5]) (range_step (length [1; 2; 3; 4; 5]) 2))
  = [1; 2; 3; 4; 5].
Proof.
  destruct (batches_partition 2 [1; 2; 3; 4; 5]) as [H _]; [lia|]. exact H.
Defined.

(** *** One child metadata per listed child *)

Lemma call_ok_inv {A} (c : Call) (op : St → (Exn + A) * St) w a w' :
  call c op w = (Ok a, w') →
  (op (storage w)).1 = inr a ∧ w' = after_call c (op (storage w)).2 w.
Proof.
  unfold call, after_call. destruct (op (storage w)) as [[e|a'] s']; [done|].
  intros H. by pair_inv H.
Qed.

Lemma flush_length func : ∀ pending w rs w',
  flush func pending w = (Ok rs, w') → length rs = length pending.
Proof.
  induction pending as [|sd pending IH]; intros w rs w' H.
  - by pair_inv H.
  - cbn [flush] in H.
    apply bind_ok_inv in H as (r & w1 & _ & H).
    apply bind_ok_inv in H as (rs' & w2 & Hrs & H).
    pair_inv H. cbn. f_equal. by eapply IH.
Qed.

Lemma build_batch_length func src dst : ∀ items pending futures w fs w',
  build_batch func src dst items pending futures w = (Ok fs, w') →
  length fs = (length futures + length pending + length items)%nat.
Proof.
  induction items as [|item items IH]; intros pending futures w fs w' H.
  - cbn [build_batch] in H.
    apply bind_ok_inv in H as (rs & w1 & Hrs & H). pair_inv H.
    apply flush_length in Hrs. rewrite length_app. cbn. lia.
  - cbn [build_batch] in H.
    apply bind_ok_inv in H as (sp & w1 & _ & H).
    apply bind_ok_inv in H as (s & w2 & _ & H).
    apply bind_ok_inv in H as (dp & w3 & _ & H).
    apply bind_ok_inv in H as (d & w4 & _ & H).
    destruct (m_is_folder item).
    + apply bind_ok_inv in H as (rs & w5 & Hrs & H).
      apply bind_ok_inv in H as (r & w6 & _ & H).
      destruct r as [e|r]; [done|].
      apply IH in H. apply flush_length in Hrs.
      rewrite H, !length_app. cbn. lia.
    + apply IH in H. rewrite H, length_app. cbn. lia.
Qed.

Lemma collect_length : ∀ done w ms w',
  collect done w = (Ok ms, w') → length ms = length done.
Proof.
  induction done as [|[e|r] done IH]; intros w ms w' H.
  - by pair_inv H.
  - done.
  - cbn [collect] in H. apply bind_ok_inv in H as (ms' & w1 & Hc & H).
    pair_inv H. cbn. f_equal. by eapply IH.
Qed.

Lemma run_batches_length func src dst : ∀ batches w ms w',
  run_batches func src dst batches w = (Ok ms, w') →
  length ms = length (concat batches).
Proof.
  induction batches as [|b batches IH]; intros w ms w' H.
  - by pair_inv H.
  - cbn [run_batches] in H.
    apply bind_ok_inv in H as (fs & w1 & Hb & H).
    apply bind_ok_inv in H as (ms1 & w2 & Hc & H).
    apply bind_ok_inv in H as (ms2 & w3 & Hr & H).
    pair_inv H. apply build_batch_length in Hb. apply IH in Hr.
    assert (length ms1 = length fs) as Hl.
    { destruct fs as [|f fs]; [by pair_inv Hc|]. by eapply collect_length. }
    cbn [concat]. rewrite !length_app, Hl, Hb, Hr. cbn. lia.
Qed.

(** X18: with a positive operation-concurrency limit, a tree operation that
    returns has listed the source folder in the storage left by the delete
    and the creation of the destination folder, and the folder metadata it
    returns holds exactly one child for every item of that listing. *)
Theorem tree_op_child_count opc func self dest src dst w folder created w' :
  allocated src w →
  0 < opc →
  _folder_file_op opc func self dest src dst w = (Ok (folder, created), w') →
  ∃ l, (metadata self (deref src w)
          (create_folder dest (deref dst w)
             (delete dest (deref dst w) (storage w)).2).2).1 = inr (Many l)
       ∧ length (m_children folder) = length l.
Proof.
  unfold allocated. intros Hal Hopc H.
  set (s1 := (delete dest (deref dst w) (storage w)).2).
  set (s2 := (create_folder dest (deref dst w) s1).2).
  destruct (is_dir (deref src w)) eqn:Hdir.
  2:{ unfold _folder_file_op in H. unfold bind at 1, read at 1 in H.
      cbn [fst snd] in H. by rewrite Hdir in H. }
  rewrite folder_file_op_start in H by done.
  rewrite delete_dest_run in H. fold s1 in H.
  destruct (created_flag _) as [c| |]; [|done|done].
  set (w1 := after_call _ s1 w) in H.
  apply bind_ok_inv in H as (dp & w2 & Hr & H). pair_inv Hr.
  apply bind_ok_inv in H as (fo & w3 & Hcf & H).
  apply call_ok_inv in Hcf as [_ ->].
  change (deref dst w1) with (deref dst w) in H.
  change (storage w1) with s1 in H. fold s2 in H.
  set (w3 := after_call _ s2 w1) in H.
  apply bind_ok_inv in H as (d' & w4 & Hrev & H).
  assert (deref src w4 = deref src w ∧ storage w4 = s2) as [Hsrc Hsto].
  { unfold revalidate_path in Hrev. destruct (parent _); [|done].
    pose proof (f_equal snd Hrev) as Hw4. cbn [snd] in Hw4. rewrite <- Hw4.
    rewrite deref_alloc_old by (cbn; lia). done. }
  apply bind_ok_inv in H as (sp' & w5 & Hr & H). pair_inv Hr.
  apply bind_ok_inv in H as (items & w6 & Hmeta & H).
  apply call_ok_inv in Hmeta as [Hmeta ->].
  destruct items as [m|l]; [done|].
  rewrite bool_decide_eq_false_2 in H by lia.
  rewrite (bool_decide_eq_false_2 (opc < 0)) in H by lia.
  apply bind_ok_inv in H as (ch & w7 & Hrun & H). pair_inv H.
  apply run_batches_length in Hrun.
  destruct (batches_partition (Z.to_nat opc) l) as [Hc _]; [lia|].
  rewrite Hc in Hrun.
  exists l. rewrite <- Hsrc, <- Hsto. split; [done|]. done.
Qed.

(** *** The renaming loop leaves its mark *)

(** X19: under a policy other than "replace" and "warn", when the path exists
    the path object is renamed in place at least once, and stays renamed
    whatever the outcome: also when the existence check of a candidate raises
    and that error is passed on to the caller. *)
Theorem keep_renames_even_on_failure fuel self path conflict w r :
  allocated path w →
  conflict ≠ "replace" → conflict ≠ "warn" →
  (metadata self (deref path w) (storage w)).1 = inr r →
  (0 < fuel)%nat →
  ∃ k, (1 ≤ k)%nat
       ∧ deref path (handle_name_conflict fuel self path conflict w).2
         = bump k (deref path w)
       ∧ name (deref path (handle_name_conflict fuel self path conflict w).2)
         ≠ name (deref path w).
Proof.
  intros Hal Hr Hw Hex Hfuel.
  rewrite handle_name_conflict_run, exists_run. cbn [fst snd].
  rewrite Hex. cbn [exists_answer]. rewrite existing_found. cbn [negb orb].
  rewrite !bool_decide_eq_false_2 by done.
  set (w1 := after_call _ _ w).
  destruct (keep_loop fuel self path w1) as [o w2] eqn:Hk.
  apply keep_loop_frame in Hk; [|done].
  destruct Hk as (k & _ & Hk1 & Hd & _).
  assert (deref path w2 = bump k (deref path w)) as Hd' by done.
  exists k. split; [by apply Hk1|].
  assert ((match o with
           | Ok _ => (Ok (path, Absent), w2)
           | Err e => (Err e, w2)
           | Out => (Out, w2)
           end).2 = w2) as -> by by destruct o.
  split; [done|]. rewrite Hd'.
  change (deref path w) with (bump 0 (deref path w)) at 2.
  intros Hn%name_bump_inj. specialize (Hk1 Hfuel). lia.
Qed.

(** *** Archives *)

Lemma zip_run self path w :
  zip_ self path w
  = (match (metadata self (deref path w) (storage w)).1 with
     | inl e => Err e
     | inr m =>
         if is_file (deref path w) then Ok (parent (deref path w), [m])
         else match m with
              | Many l => Ok (Some (deref path w), map One l)
              | One _ => Err (mkExn TypeError 0 None)
              end
     end,
     after_call (CallMetadata (NAME self) (deref path w))
                (metadata self (deref path w) (storage w)).2 w).
Proof.
  unfold zip_. unfold bind at 1, read at 1. cbn [fst snd].
  unfold bind at 1, do_metadata, call, after_call.
  destruct (metadata self (deref path w) (storage w)) as [[e|m] s1]; cbn [fst snd];
    [done|].
  unfold bind, read. cbn [fst snd].
  change (deref path (mkWorld _ _ _ _)) with (deref path w).
  destruct (is_file (deref path w)); [done|]. by destruct m.
Qed.

(** X20: [zip] asks [metadata] once and passes every error on, a not-found
    error included.  For a file path the archive has a single item, the
    answer of [metadata], and is rooted at the parent folder; for a folder
    path it has one item per entry of the listing and is rooted at the folder
    itself. *)
Theorem zip_items self path w :
  let p := deref path w in
  let answer := metadata self p (storage w) in
  let w1 := after_call (CallMetadata (NAME self) p) answer.2 w in
  (∀ e, answer.1 = inl e → zip_ self path w = (Err e, w1))
  ∧ (∀ m, answer.1 = inr m → is_file p = true →
          zip_ self path w = (Ok (parent p, [m]), w1))
  ∧ (∀ l, answer.1 = inr (Many l) → is_file p = false →
          zip_ self path w = (Ok (Some p, map One l), w1)
          ∧ length (map One l) = length l).
Proof.
  intros p answer w1. rewrite zip_run. fold p answer w1. repeat split.
  - by intros e ->.
  - by intros m -> ->.
  - by rewrite H, H0.
  - apply length_map.
Qed.

(** X21: with an intra-copy fast path, [copy] is the single call of
    [intra_copy], for a file and for a folder alike: nothing is downloaded,
    uploaded, deleted or listed, and the outcome is that of [intra_copy]. *)
Theorem fast_path_copy fuel opc self dest src dst rename conflict w :
  can_intra_copy self (NAME dest) (deref src w) = true →
  let answer := intra_copy self (NAME dest) (deref src w) (deref dst w) (storage w) in
  copy (S fuel) opc self dest src dst rename conflict false w
  = (match answer.1 with
     | inl e => Err e
     | inr r => Ok r
     end,
     after_call (CallIntraCopy (NAME self) (deref src w) (deref dst w)) answer.2 w).
Proof.
  intros Hfast answer. cbn [copy]. unfold bind at 1, ret at 1.
  unfold bind at 1, read at 1. cbn [fst snd]. rewrite Hfast.
  unfold bind, read, do_intra_copy, call, after_call. cbn [fst snd]. fold answer.
  by destruct answer as [[e|r] s1].
Qed.

(** *** Batches *)

(** A batch never holds more children than the operation-concurrency limit. *)
Lemma slice_length {A} (i step : nat) (items : list A) :
  (length (slice i step items) ≤ step)%nat.
Proof. unfold slice. rewrite length_take. lia. Qed.

End Generic.


(** *** The memory backend *)

Lemma mem_metadata_pure p d : (mem_metadata p d).2 = d.
Proof.
  unfold mem_metadata. destruct (is_dir p).
  - by destruct (_ || _).
  - by destruct (find_node _ _ _).
Qed.

Lemma mem_metadata_err p d e : (mem_metadata p d).1 = inl e → e = not_found.
Proof.
  unfold mem_metadata. destruct (is_dir p).
  - destruct (_ || _); cbn; congruence.
  - destruct (find_node _ _ _); cbn; congruence.
Qed.

(** *** The claims on concrete inputs *)

(** /dir/a.txt exists: "warn" raises the conflict carrying the path object. *)
Lemma naming_conflict_iff_warn_and_existing_witness :
  ∃ w', handle_name_conflict 3 memory 0 "warn" world_taken
        = (Err (mkExn NamingConflict 409 (Some 0%nat)), w')
        ∧ cls (mkExn NamingConflict 409 (Some 0%nat)) = NamingConflict.
Proof.
  apply (naming_conflict_iff_warn_and_existing 3 memory 0 "warn" world_taken
           (mkExn NamingConflict 409 (Some 0%nat))).
  - intros p s e' He. apply mem_metadata_err in He. by subst e'.
  - split; [reflexivity|]. split; [|reflexivity].
    exists (Found (One (mkMeta "a.txt" false []))). split; vm_compute; reflexivity.
Defined.

(** The empty folder /dir/sub/ counts as existing: "warn" raises, "keep"
    increments. *)
Lemma exists_and_empty_listing_witness :
  handle_name_conflict 3 memory 0 "warn" world_empty_folder
  = (Err (mkExn NamingConflict 409 (Some 0%nat)),
     after_call (CallMetadata "memory" (child dir_path "sub" true)) disk_empty_folder
                world_empty_folder)
  ∧ (count (leaf (child dir_path "sub" true))
     < count (leaf (deref 0
         (handle_name_conflict 3 memory 0 "keep" world_empty_folder).2)))%nat.
Proof.
  destruct (exists_and_empty_listing 3 memory 0 "keep" world_empty_folder)
    as (_ & _ & _ & H).
  destruct (H eq_refl) as (Hwarn & _ & Hkeep).
  split; [exact Hwarn|].
  apply Hkeep; [discriminate | discriminate | unfold allocated; cbn; lia | lia].
Defined.

(** C4 (the claim as worded fails): with /dir/a.txt and /dir/a (1).txt taken,
    the policy "keep" returns the path, renamed to a (2).txt, paired with a
    second component whose truth value is false, not true. *)
Lemma keep_flag_is_not_true :
  (handle_name_conflict 5 memory 0 "keep" world_taken).1 = Ok (0%nat, Absent)
  ∧ name (deref 0 (handle_name_conflict 5 memory 0 "keep" world_taken).2) = "a (2).txt"
  ∧ ¬ ∃ c x, (handle_name_conflict 5 memory 0 "keep" world_taken).1 = Ok (c, x)
              ∧ truthy x = true.
Proof.
  assert ((handle_name_conflict 5 memory 0 "keep" world_taken).1 = Ok (0%nat, Absent))
    as H by (vm_compute; reflexivity).
  split; [exact H|]. split; [vm_compute; reflexivity|].
  intros (c & x & Hx & Ht). rewrite H in Hx. by pair_inv Hx.
Qed.

(** With a.txt and a (1).txt taken, "keep" settles on a (2).txt. *)
Lemma keep_returns_first_free_candidate_witness :
  ∃ w', handle_name_conflict 5 memory 0 "keep" world_taken = (Ok (0%nat, Absent), w')
        ∧ name (deref 0 w') = "a (2).txt"
        ∧ name (deref 0 w') ≠ "a.txt".
Proof.
  destruct (keep_returns_first_free_candidate 5 memory 0 "keep" world_taken dir_path 2)
    as (w' & Hrun & Hd & Hname & Hne & _).
  - apply mem_metadata_pure.
  - unfold allocated; cbn; lia.
  - reflexivity.
  - discriminate.
  - discriminate.
  - eexists. vm_compute. reflexivity.
  - intros i Hi. assert (i = 1%nat) as -> by lia. eexists. vm_compute. reflexivity.
  - exists not_found. split; vm_compute; reflexivity.
  - lia.
  - exists w'. split; [exact Hrun|]. split.
    + rewrite Hname. vm_compute. reflexivity.
    + exact Hne.
Defined.

(** Copying the folder /src/ to the absent /dst/src/: the delete raises 404,
    and the tree operation returns the folder with the flag set. *)
Lemma tree_op_created_flag_witness :
  delete_dest memory 1 world_tree_sound
  = (Ok true,
     after_call (CallDelete "memory" (child (at_root "dst" true) "src" true))
                (mkDisk (nodes disk_tree) [] None) world_tree_sound)
  ∧ (_folder_file_op 2 (λ s d, copy 3 2 memory memory s d None "replace" false)
       memory memory 0 1 world_tree_sound).1
    = Ok (mkMeta "src" true [mkMeta "a" false []; mkMeta "b" false []], true).
Proof.
  destruct (tree_op_created_flag 2
              (λ s d, copy 3 2 memory memory s d None "replace" false)
              memory memory 0 1 world_tree_sound) as (Hmissing & _ & _).
  - reflexivity.
  - destruct (Hmissing not_found) as [Hdel _]; [reflexivity..|].
    split; [exact Hdel|]. vm_compute. reflexivity.
Defined.

(** C3 (the claim as worded fails): moving the folder /src/ whose second file
    cannot be downloaded raises the download error, as copy-then-delete does,
    but the move has already deleted the first file from the source, while
    after copy-then-delete the source is whole. *)
Lemma move_folder_is_not_copy_then_delete :
  (move 5 2 memory memory 0 1 None "replace" false world_tree).1
    = Err (mkExn DownloadError 500 None)
  ∧ (copy_then_delete 5 2 memory memory 0 1 None "replace" false world_tree).1
    = Err (mkExn DownloadError 500 None)
  ∧ find_node ["src"; "a"] false
      (storage (move 5 2 memory memory 0 1 None "replace" false world_tree).2) = None
  ∧ find_node ["src"; "a"] false
      (storage (copy_then_delete 5 2 memory memory 0 1 None "replace" false world_tree).2)
    = Some (mkNode ["src"; "a"] false "A")
  ∧ observed (move 5 2 memory memory 0 1 None "replace" false world_tree)
    ≠ observed (copy_then_delete 5 2 memory memory 0 1 None "replace" false world_tree).
Proof.
  repeat split; try (vm_compute; reflexivity).
  vm_compute. discriminate.
Qed.

(** Moving the file /a.txt to /dir/b.txt. *)
Lemma move_file_is_copy_then_delete_witness :
  move 3 2 memory memory 0 2 None "replace" false world_named
  = copy_then_delete 3 2 memory memory 0 2 None "replace" false world_named.
Proof.
  destruct (move_file_is_copy_then_delete 3 2 memory memory 0 2 None "replace" false
              world_named) as [H _].
  - reflexivity.
  - unfold allocated; cbn; lia.
  - unfold allocated; cbn; lia.
  - reflexivity.
  - exact H.
Defined.

(** C10 (the claim as worded fails): copying /a.txt into the folder path /dir/
    with naming resolution on, from a stream that suggests report.pdf, uploads
    to /dir/report.pdf, and the caller's path object still reads /dir/. *)
Lemma copy_into_folder_keeps_caller_path :
  (mem_download (deref 0 world_named) (storage world_named)).1
    = inr (mkStream (Some "report.pdf") "A")
  ∧ (copy 3 2 memory memory 0 1 None "replace" true world_named).1
    = Ok (mkMeta "report.pdf" false [], true)
  ∧ name (deref 1 (copy 3 2 memory memory 0 1 None "replace" true world_named).2) = "dir"
  ∧ name (deref 1 (copy 3 2 memory memory 0 1 None "replace" true world_named).2)
    ≠ "report.pdf".
Proof.
  repeat split; try (vm_compute; reflexivity).
  vm_compute. discriminate.
Qed.

(** Copying /a.txt to the file path /dir/b.txt with naming resolution off,
    from a stream that suggests report.pdf: the caller's object is renamed. *)
Lemma copy_renames_upload_target_witness :
  name (deref 2 (copy 3 2 memory memory 0 2 None "replace" false world_named).2)
  = "report.pdf".
Proof.
  destruct (copy_renames_upload_target 2 2 memory memory 0 2 None "replace" false
              world_named 2%nat world_named (mkStream (Some "report.pdf") "A") disk_named)
    as (Hnamed & _).
  - reflexivity.
  - unfold allocated; cbn; lia.
  - reflexivity.
  - reflexivity.
  - reflexivity.
  - by destruct (Hnamed "report.pdf" eq_refl) as [Hname _].
Defined.


(** *** The further properties on concrete inputs *)

(** /dir/b.txt does not exist: even "warn" returns the path. *)
Lemma absent_path_returned_as_is_witness :
  handle_name_conflict 3 memory 2 "warn" world_named
  = (Ok (2%nat, Absent),
     after_call (CallMetadata "memory" (child dir_path "b.txt" false)) disk_named
                world_named).
Proof.
  apply (absent_path_returned_as_is 3 memory 2 "warn" world_named not_found);
    reflexivity.
Defined.

(** The folder /dir/ onto the file path /a.txt. *)
Lemma folder_onto_file_rejected_witness :
  move 3 2 memory memory 1 0 None "replace" true world_named
  = (Err (mkExn ValueError 0 None), world_named).
Proof.
  destruct (folder_onto_file_rejected 2 2 memory memory 1 0 None "replace" world_named)
    as (_ & _ & H); [reflexivity..|exact H].
Defined.

(** cp /a.txt /dir/ -> /dir/a.txt. *)
Lemma naming_into_folder_witness :
  name (deref 3 (handle_naming 3 memory 0 1 None "replace" world_named).2) = "a.txt"
  ∧ parent (deref 3 (handle_naming 3 memory 0 1 None "replace" world_named).2)
    = Some dir_path.
Proof.
  destruct (naming_into_folder 3 memory 0 1 None "replace" world_named)
    as (_ & Hd & Hn & _ & Hp & _); [reflexivity|by left|].
  change (next world_named) with 3%nat in Hd. rewrite Hd.
  split; [exact Hn | exact Hp].
Defined.

(** cp /a.txt /dir/b.txt -> /dir/b.txt. *)
Lemma naming_onto_file_replace_witness :
  (handle_naming 3 memory 0 2 None "replace" world_named).1 = Ok 2%nat.
Proof.
  rewrite (naming_onto_file_replace 3 memory 0 2 None world_named); reflexivity.
Defined.

(** Copying /a.txt to /dir/b.txt: the download, then the upload under the name
    the stream suggests. *)
Lemma file_copy_downloads_then_uploads_witness :
  log (copy 3 2 memory memory 0 2 None "replace" false world_named).2
  = [CallDownload "memory" (at_root "a.txt" false);
     CallUpload "memory" (mkStream (Some "report.pdf") "A")
       (child dir_path "report.pdf" false)].
Proof.
  destruct (file_copy_downloads_then_uploads 2 2 memory memory 0 2 None "replace"
              world_named) as [_ H]; [reflexivity..|].
  destruct (H (mkStream (Some "report.pdf") "A") disk_named eq_refl) as [_ Hlog].
  rewrite Hlog. reflexivity.
Defined.

(** Moving /a.txt to /dir/b.txt inside the disk: no download, no upload. *)
Lemma fast_path_move_witness :
  log (move 3 2 memory_fast memory_fast 0 2 None "replace" false world_named).2
  = [CallIntraCopy "memory" (at_root "a.txt" false) (child dir_path "b.txt" false);
     CallDelete "memory" (at_root "a.txt" false)].
Proof.
  rewrite (fast_path_move 2 2 memory_fast memory_fast 0 2 None "replace" world_named);
    reflexivity.
Defined.

(** Copying the folder /src/ to a provider without folder support. *)
Lemma tree_op_without_folder_support_witness :
  (_folder_file_op 2 (λ s d, copy 3 2 memory memory_flat s d None "replace" false)
     memory memory_flat 0 1 world_tree_sound).1
  = Err (mkExn ProviderError 405 None).
Proof.
  rewrite (tree_op_without_folder_support 2 _ memory memory_flat 0 1 world_tree_sound
             true); reflexivity.
Defined.

(** Copying the folder /src/ with its two files: the listing made after
    /dst/src/ was created has two items, and so has the folder returned. *)
Lemma tree_op_child_count_witness :
  ∃ l, (mem_metadata src_folder
          (mkDisk (nodes disk_tree ++ [mkNode ["dst"; "src"] true ""]) [] None)).1
       = inr (Many l)
       ∧ length [mkMeta "a" false []; mkMeta "b" false []] = length l.
Proof.
  apply (tree_op_child_count 2 (λ s d, copy 3 2 memory memory s d None "replace" false)
           memory memory 0 1 world_tree_sound
           (mkMeta "src" true [mkMeta "a" false []; mkMeta "b" false []]) true
           (_folder_file_op 2 (λ s d, copy 3 2 memory memory s d None "replace" false)
              memory memory 0 1 world_tree_sound).2).
  - unfold allocated; cbn; lia.
  - lia.
  - apply injective_projections; [vm_compute; reflexivity | reflexivity].
Defined.

(** With a.txt and a (1).txt taken, the path object ends up renamed. *)
Lemma keep_renames_even_on_failure_witness :
  ∃ k, (1 ≤ k)%nat
       ∧ deref 0 (handle_name_conflict 5 memory 0 "keep" world_taken).2
         = bump k (child dir_path "a.txt" false)
       ∧ name (deref 0 (handle_name_conflict 5 memory 0 "keep" world_taken).2)
         ≠ "a.txt".
Proof.
  apply (keep_renames_even_on_failure 5 memory 0 "keep" world_taken
           (One (mkMeta "a.txt" false []))).
  - unfold allocated; cbn; lia.
  - discriminate.
  - discriminate.
  - reflexivity.
  - lia.
Defined.

(** Copying /a.txt to /dir/b.txt inside the disk. *)
Lemma fast_path_copy_witness :
  log (copy 3 2 memory_fast memory_fast 0 2 None "replace" false world_named).2
  = [CallIntraCopy "memory" (at_root "a.txt" false) (child dir_path "b.txt" false)].
Proof.
  rewrite (fast_path_copy 2 2 memory_fast memory_fast 0 2 None "replace" world_named);
    reflexivity.
Defined.

End ProviderProps.
